(** * Gantty: the screenshot walkthrough of [docs/take_screenshots.py]

    The script drives a browser through Playwright's synchronous API and
    saves nine screenshots.  Everything it does is a call on its
    environment, so the embedding is a small monad that threads the
    environment, stops at the first exception (the script has no
    [try]/[except]) and records each call together with its reply.  The
    properties of the script are properties of that record. *)

From Stdlib Require Import String Ascii List Bool Arith NArith Lia.
Import ListNotations.
Open Scope string_scope.

(** ** The Playwright calls the script makes *)

Module Playwright.

(** A Python exception: its class name and its message. *)
Inductive exn := PyExn (cls msg : string).

Definition exn_class (e : exn) : string := let (cls, _) := e in cls.

(** [page.locator(sel)], [loc.nth(i)] and [loc.first] build locators
    without talking to the browser. *)
Inductive locator :=
| Locator (selector : string)
| Nth (l : locator) (i : nat)
| First (l : locator).

Fixpoint locator_eqb (a b : locator) : bool :=
  match a, b with
  | Locator s, Locator t => String.eqb s t
  | Nth l i, Nth m j => locator_eqb l m && Nat.eqb i j
  | First l, First m => locator_eqb l m
  | _, _ => false
  end.

(** One constructor per library call of the script, with its literal
    arguments. *)
Inductive call :=
| SyncPlaywrightEnter                    (* with sync_playwright() as p: *)
| SyncPlaywrightExit                     (* leaving the with block *)
| Launch (headless : bool)               (* p.chromium.launch(headless=..) *)
| NewPage (width height : N)             (* browser.new_page(viewport=..) *)
| Goto (url : string)                    (* page.goto(url) *)
| WaitForLoadState (st : string)         (* page.wait_for_load_state(st) *)
| Sleep (seconds : N)                    (* time.sleep(seconds) *)
| Print (line : string)                  (* print(line) *)
| Screenshot (path : string)             (* page.screenshot(path=path) *)
| Count (l : locator)                    (* l.count() *)
| Click (l : locator)                    (* l.click() *)
| WaitForTimeout (ms : N)                (* page.wait_for_timeout(ms) *)
| KeyboardType (text : string)           (* page.keyboard.type(text) *)
| KeyboardPress (key : string)           (* page.keyboard.press(key) *)
| Fill (l : locator) (value : string)    (* l.fill(value) *)
| BrowserClose.                          (* browser.close() *)

(** A call returns (the integer matters for [count()] only) or raises. *)
Inductive reply :=
| Returned (v : nat)
| Raised (e : exn).

Inductive event := Ev (c : call) (r : reply).

Definition call_of (e : event) : call := let (c, _) := e in c.
Definition reply_of (e : event) : reply := let (_, r) := e in r.

Definition returned (e : event) : bool :=
  match reply_of e with Returned _ => true | Raised _ => false end.

Inductive result (A : Type) :=
| Ok (a : A)
| Err (e : exn).
Arguments Ok {A} a.
Arguments Err {A} e.

End Playwright.

Import Playwright.

(** ** The literals of the script *)

(** The double quote inside a selector. *)
Definition dq : string := String "034"%char EmptyString.
Definition quoted (s : string) : string := dq ++ s ++ dq.
Definition has_text (tag text : string) : string :=
  tag ++ ":has-text(" ++ quoted text ++ ")".

Definition add_button : locator := Locator (has_text "button" "タスクを追加").
Definition subtask_buttons : locator :=
  Locator ("[aria-label=" ++ quoted "サブタスクを追加" ++ "]").
Definition task_items : locator :=
  Locator ("[data-testid^=" ++ quoted "task-item-" ++ "]").
Definition start_date_input : locator := Locator (has_text "button" "開始日を設定").
Definition day_buttons : locator :=
  Locator ("[role=" ++ quoted "gridcell" ++ "] button").
Definition close_button : locator :=
  Locator ("[aria-label=" ++ quoted "Close" ++ "]").
Definition gantt_button : locator := Locator (has_text "button" "ガント").
Definition kanban_button : locator := Locator (has_text "button" "カンバン").
Definition network_button : locator := Locator (has_text "button" "ネットワーク").
Definition list_button : locator := Locator (has_text "button" "リスト").
Definition member_button : locator := Locator (has_text "button" "メンバー").
Definition add_member : locator := Locator (has_text "button" "メンバーを追加").
Definition name_input : locator :=
  Locator ("input[placeholder*=" ++ quoted "名前" ++ "]").
Definition close_buttons : locator :=
  Locator ("button[aria-label=" ++ quoted "Close" ++ "], "
           ++ has_text "button" "閉じる").
Definition status_button : locator := Locator (has_text "button" "ステータス").

Definition tasks : list string :=
  [ "企画・設計フェーズ";
    "デザイン制作";
    "開発・実装";
    "テスト・検証";
    "本番リリース" ].

(** The nine screenshots, in the order the script takes them. *)
Definition artifact_names : list string :=
  [ "01_empty_list_view.png";
    "02_list_view_with_tasks.png";
    "03_list_view_hierarchy.png";
    "04_task_detail_panel.png";
    "05_gantt_view.png";
    "06_kanban_view.png";
    "07_network_view.png";
    "08_member_dialog.png";
    "09_status_dialog.png" ].

(** The progress line printed before a capture, and the file written. *)
Definition announce (name : string) : string := "Taking screenshot: " ++ name.
Definition image_path (name : string) : string := "docs/images/" ++ name.

(** ** Some browsers to run the script against *)

(** Every locator matches [n] elements and every call returns. *)
Definition uniform_page (n : nat) (w : unit) (c : call) : reply * unit :=
  (match c with Count _ => Returned n | _ => Returned 0 end, w).

(** The application is not running: navigation is refused. *)
Definition connection_refused : exn :=
  PyExn "playwright._impl._errors.Error" "net::ERR_CONNECTION_REFUSED".

Definition offline (w : unit) (c : call) : reply * unit :=
  (match c with Goto _ => Raised connection_refused | _ => Returned 0 end, w).

(** ** Reading a trace *)

Open Scope list_scope.
Open Scope nat_scope.

(** The calls of the body of the [with] block, as opposed to entering
    and leaving it. *)
Definition script_step (c : call) : bool :=
  match c with
  | SyncPlaywrightEnter | SyncPlaywrightExit => false
  | _ => true
  end.

(** The calls that create or release the browser session. *)
Definition session_call (c : call) : bool :=
  match c with
  | SyncPlaywrightEnter | SyncPlaywrightExit | Launch _ | NewPage _ _ => true
  | _ => false
  end.

(** Clicking, typing, pressing a key, filling a field. *)
Definition interaction (c : call) : bool :=
  match c with
  | Click _ | KeyboardType _ | KeyboardPress _ | Fill _ _ => true
  | _ => false
  end.

Definition interactions (t : list event) : list call :=
  filter interaction (map call_of t).

(** The files written: the paths of the screenshots that returned. *)
Definition screenshots (t : list event) : list string :=
  flat_map (fun e => match e with
                     | Ev (Screenshot p) (Returned _) => [p]
                     | _ => []
                     end) t.

Definition first_call (t : list event) : option call :=
  match t with
  | e :: _ => Some (call_of e)
  | [] => None
  end.

(** The next call made is one of [cs]. *)
Definition next_call (cs : list call) (t : list event) : Prop :=
  match t with
  | e :: _ => In (call_of e) cs
  | [] => False
  end.

(** [phi e rest] holds of every event [e] of the trace and the events
    [rest] that follow it. *)
Fixpoint suffixes_ok (phi : event -> list event -> Prop) (t : list event) : Prop :=
  match t with
  | [] => True
  | e :: rest => phi e rest /\ suffixes_ok phi rest
  end.

(** The [if loc.count() > k:] blocks of the script: the locator counted,
    the bound [k], the first call inside the block, and the call that
    starts the statement after the block (two candidates for the add-task
    block, which stands once before and once inside the loop). *)
Record guard := Guard {
  target : locator;
  bound : nat;
  first_action : call;
  next_step : list call
}.

Definition guards : list guard :=
  [ Guard add_button 0 (Click add_button)
      [Count add_button; Print (announce "02_list_view_with_tasks.png")];
    Guard subtask_buttons 1 (Click (Nth subtask_buttons 1))
      [Print (announce "03_list_view_hierarchy.png")];
    Guard task_items 0 (Click (First task_items))
      [Print (announce "04_task_detail_panel.png")];
    Guard start_date_input 0 (Click start_date_input) [Count close_button];
    Guard day_buttons 5 (Click (Nth day_buttons 5)) [Count close_button];
    Guard close_button 0 (Click (First close_button)) [Count gantt_button];
    Guard gantt_button 0 (Click gantt_button)
      [Print (announce "05_gantt_view.png")];
    Guard kanban_button 0 (Click kanban_button)
      [Print (announce "06_kanban_view.png")];
    Guard network_button 0 (Click network_button)
      [Print (announce "07_network_view.png")];
    Guard list_button 0 (Click list_button) [Count member_button];
    Guard member_button 0 (Click member_button)
      [Print (announce "08_member_dialog.png")];
    Guard add_member 0 (Click add_member) [Count close_buttons];
    Guard name_input 0 (Fill name_input "田中太郎") [Count close_buttons];
    Guard close_buttons 0 (Click (First close_buttons)) [Count status_button];
    Guard status_button 0 (Click status_button)
      [Print (announce "09_status_dialog.png")] ].

Definition lookup_guard (l : locator) : option guard :=
  find (fun g => locator_eqb l (target g)) guards.

(** The screenshot a printed line announces, if any. *)
Definition announced (line : string) : option string :=
  find (fun name => String.eqb line (announce name)) artifact_names.

(** What must follow an event: after a [count()] that returned, the block
    is entered exactly when the count exceeds the bound, and is otherwise
    passed over for the next statement; after an announcement that was
    printed comes its capture. *)
Definition guard_rule (e : event) (rest : list event) : Prop :=
  match e with
  | Ev (Count l) (Returned n) =>
      match lookup_guard l with
      | Some g =>
          (n <= bound g -> next_call (next_step g) rest) /\
          (bound g < n -> next_call [first_action g] rest)
      | None => False
      end
  | Ev (Print line) (Returned _) =>
      match announced line with
      | Some name => next_call [Screenshot (image_path name)] rest
      | None => True
      end
  | _ => True
  end.

(** No interaction before the first capture has returned. *)
Definition first_capture (e : event) : bool :=
  match e with
  | Ev (Screenshot p) (Returned _) =>
      String.eqb p (image_path "01_empty_list_view.png")
  | _ => false
  end.

Fixpoint capture_first (seen : bool) (t : list event) : Prop :=
  match t with
  | [] => True
  | e :: rest =>
      (interaction (call_of e) = true -> seen = true) /\
      capture_first (seen || first_capture e) rest
  end.

(** The clicks, texts and keys of the six add-task rounds. *)
Definition add_task (name : string) : list call :=
  [Click add_button; KeyboardType name; KeyboardPress "Enter"].

Definition six_add_tasks : list call :=
  flat_map add_task ("ウェブサイトリニューアル" :: tasks).

(** An add attempt that found no button. *)
Definition add_attempt_missed (e : event) : bool :=
  match e with
  | Ev (Count l) (Returned 0) => locator_eqb l add_button
  | _ => false
  end.

Definition second_capture : call :=
  Screenshot (image_path "02_list_view_with_tasks.png").

(** Going through a trace with the interactions seen so far (newest
    first) and whether every add attempt so far found its button: when
    the second capture is reached, the interactions are the six rounds. *)
Fixpoint six_before_second (found : bool) (seen : list call) (t : list event) : Prop :=
  match t with
  | [] => True
  | e :: rest =>
      (call_of e = second_capture -> found = true -> rev seen = six_add_tasks) /\
      six_before_second (found && negb (add_attempt_missed e))
        (if interaction (call_of e) then call_of e :: seen else seen) rest
  end.

(** The literals a call of the script may carry, by kind of parameter. *)
Definition literal_call (c : call) : bool :=
  match c with
  | SyncPlaywrightEnter | SyncPlaywrightExit | BrowserClose => true
  | Launch headless => headless
  | NewPage width height => N.eqb width 1280 && N.eqb height 800
  | Goto url => String.eqb url "http://localhost:1420"
  | WaitForLoadState st => String.eqb st "networkidle"
  | Sleep seconds => N.eqb seconds 1
  | Print line =>
      existsb (String.eqb line)
        ("All screenshots taken successfully!" :: map announce artifact_names)
  | Screenshot path => existsb (String.eqb path) (map image_path artifact_names)
  | Count l => existsb (fun g => locator_eqb l (target g)) guards
  | Click l =>
      existsb (fun g => match first_action g with
                        | Click l' => locator_eqb l l'
                        | _ => false
                        end) guards
  | WaitForTimeout ms => existsb (N.eqb ms) [300; 500; 1000]%N
  | KeyboardType text =>
      existsb (String.eqb text)
        ("ウェブサイトリニューアル" :: tasks
         ++ ["要件定義"; "ワイヤーフレーム作成"; "サイトマップ作成"])
  | KeyboardPress key => existsb (String.eqb key) ["Enter"; "Escape"]
  | Fill l value => locator_eqb l name_input && String.eqb value "田中太郎"
  end.

(** The error the specification names for a failed run: an exception
    of this class. *)
Definition step_execution_error (x : exn) : Prop :=
  exn_class x = "StepExecutionError"%string.

(** What the operating system hands to the interpreter besides the
    script: the script never looks at any of it. *)
Record process := Process {
  argv : list string;
  environ : list (string * string);
  config_files : list (string * string)
}.

(** ** The process around the script *)

(** The interpreter writes standard output through directly when
    PYTHONUNBUFFERED is set to a non-empty string, and buffers it
    otherwise. *)
Definition unbuffered (p : process) : bool :=
  existsb (fun kv => String.eqb (fst kv) "PYTHONUNBUFFERED"
                     && negb (String.eqb (snd kv) ""))
          (environ p).

Definition no_space : exn :=
  PyExn "OSError" "[Errno 28] No space left on device".

(** Standard output goes to a device that accepts nothing, on a page
    where nothing matches: an unbuffered [print] raises, a buffered one
    returns. *)
Definition unwritable_stdout (p : process) (w : unit) (c : call) : reply * unit :=
  (match c with
   | Print _ => if unbuffered p then Raised no_space else Returned 0
   | _ => Returned 0
   end, w).

(** The replies of a run, handed out again in their order. *)
Definition replay (rs : list reply) (c : call) : reply * list reply :=
  match rs with
  | r :: rs' => (r, rs')
  | [] => (Raised (PyExn "" ""), [])
  end.

(** ** The monad of the script *)

Section Walkthrough.

(** The browser, the page it shows and the application behind it are
  an arbitrary state machine answering the calls. *)
Variable World : Type.
Variable respond : World -> call -> reply * World.

Record outcome (A : Type) := Outcome {
  res : result A;       (* value returned, or exception in flight *)
  after : World;        (* the environment afterwards *)
  trace : list event    (* the calls made, oldest first *)
  }.
Arguments Outcome {A}.
Arguments res {A}.
Arguments after {A}.
Arguments trace {A}.

Definition M (A : Type) : Type := World -> outcome A.

Definition ret {A} (a : A) : M A :=
  fun w => Outcome (Ok a) w [].

Definition bind {A B} (m : M A) (k : A -> M B) : M B :=
  fun w =>
    let o := m w in
    match res o with
    | Ok a =>
        let o' := k a (after o) in
        Outcome (res o') (after o') (trace o ++ trace o')
    | Err e => Outcome (Err e) (after o) (trace o)
    end.

(** A library call whose value the script uses. *)
Definition perform (c : call) : M nat :=
  fun w =>
    let rw := respond w c in
    Outcome (match fst rw with
             | Returned v => Ok v
             | Raised e => Err e
             end)
            (snd rw) [Ev c (fst rw)].

(** A library call made for its effect. *)
Definition action (c : call) : M unit :=
  fun w =>
    let rw := respond w c in
    Outcome (match fst rw with
             | Returned _ => Ok tt
             | Raised e => Err e
             end)
            (snd rw) [Ev c (fst rw)].

(** [if b: body] *)
Definition when (b : bool) (body : M unit) : M unit :=
  if b then body else ret tt.

(** [for x in xs: f x] *)
Fixpoint for_each {X} (xs : list X) (f : X -> M unit) : M unit :=
  match xs with
  | [] => ret tt
  | x :: xs' => bind (f x) (fun _ => for_each xs' f)
  end.

(** [with sync_playwright() as p: body].  [__enter__] raising skips
    body and [__exit__]; otherwise [__exit__] runs however the body
    ends.  Playwright's [__exit__] returns [None], so an exception of
    the body is re-raised; an exception of [__exit__] replaces it. *)
Definition with_sync_playwright {A} (body : M A) : M A :=
  fun w =>
    let o0 := action SyncPlaywrightEnter w in
    match res o0 with
    | Err e => Outcome (Err e) (after o0) (trace o0)
    | Ok _ =>
        let o1 := body (after o0) in
        let o2 := action SyncPlaywrightExit (after o1) in
        Outcome (match res o2 with
                 | Err e' => Err e'
                 | Ok _ => res o1
                 end)
                (after o2) (trace o0 ++ trace o1 ++ trace o2)
    end.

(** The calls of the script.  [print] and [time.sleep] belong to the
    standard library, not to the browser; like the others they are
    answered by the environment and may raise (a [print] to a standard
    output that cannot be written does). *)
Definition launch (headless : bool) : M unit := action (Launch headless).
Definition new_page (width height : N) : M unit := action (NewPage width height).
Definition goto (url : string) : M unit := action (Goto url).
Definition wait_for_load_state (st : string) : M unit := action (WaitForLoadState st).
Definition sleep (seconds : N) : M unit := action (Sleep seconds).
Definition print (line : string) : M unit := action (Print line).
Definition screenshot (path : string) : M unit := action (Screenshot path).
Definition count (l : locator) : M nat := perform (Count l).
Definition click (l : locator) : M unit := action (Click l).
Definition wait_for_timeout (ms : N) : M unit := action (WaitForTimeout ms).
Definition keyboard_type (text : string) : M unit := action (KeyboardType text).
Definition keyboard_press (key : string) : M unit := action (KeyboardPress key).
Definition fill (l : locator) (value : string) : M unit := action (Fill l value).
Definition browser_close : M unit := action BrowserClose.

Local Notation "x <- m ;; k" := (bind m (fun x => k))
  (at level 61, m at next level, right associativity).
Local Notation "m ;; k" := (bind m (fun _ => k))
  (at level 61, right associativity).

(** ** The script *)

(** The body of the [with] block of [main], statement by statement. *)
Definition main_body : M unit :=
    launch true ;;
    new_page 1280 800 ;;
    (* Navigate to the app *)
    goto "http://localhost:1420" ;;
    wait_for_load_state "networkidle" ;;
    sleep 1 ;;
    (* 1. Initial empty state - List View *)
    print "Taking screenshot: 01_empty_list_view.png" ;;
    screenshot "docs/images/01_empty_list_view.png" ;;
    (* Add first task *)
    n <- count add_button ;;
    when (0 <? n)
      (click add_button ;;
       wait_for_timeout 300 ;;
       keyboard_type "ウェブサイトリニューアル" ;;
       keyboard_press "Enter" ;;
       wait_for_timeout 500) ;;
    (* Add more tasks for a realistic project *)
    for_each tasks (fun task =>
      n <- count add_button ;;
      when (0 <? n)
        (click add_button ;;
         wait_for_timeout 300 ;;
         keyboard_type task ;;
         keyboard_press "Enter" ;;
         wait_for_timeout 300)) ;;
    (* 2. List view with tasks *)
    print "Taking screenshot: 02_list_view_with_tasks.png" ;;
    screenshot "docs/images/02_list_view_with_tasks.png" ;;
    (* Add subtasks: the subtask button of the second task (index 1) *)
    n <- count subtask_buttons ;;
    when (1 <? n)
      (click (Nth subtask_buttons 1) ;;
       wait_for_timeout 300 ;;
       keyboard_type "要件定義" ;;
       keyboard_press "Enter" ;;
       wait_for_timeout 300 ;;
       keyboard_type "ワイヤーフレーム作成" ;;
       keyboard_press "Enter" ;;
       wait_for_timeout 300 ;;
       keyboard_type "サイトマップ作成" ;;
       keyboard_press "Escape" ;;
       wait_for_timeout 500) ;;
    (* 3. List view with hierarchy *)
    print "Taking screenshot: 03_list_view_hierarchy.png" ;;
    screenshot "docs/images/03_list_view_hierarchy.png" ;;
    (* Click on a task to open detail panel *)
    n <- count task_items ;;
    when (0 <? n)
      (click (First task_items) ;;
       wait_for_timeout 500) ;;
    (* 4. Task detail panel *)
    print "Taking screenshot: 04_task_detail_panel.png" ;;
    screenshot "docs/images/04_task_detail_panel.png" ;;
    (* Set dates for some tasks via detail panel *)
    n <- count start_date_input ;;
    when (0 <? n)
      (click start_date_input ;;
       wait_for_timeout 300 ;;
       (* Click a date in the calendar *)
       d <- count day_buttons ;;
       when (5 <? d)
         (click (Nth day_buttons 5) ;;
          wait_for_timeout 300)) ;;
    (* Close detail panel if open *)
    n <- count close_button ;;
    when (0 <? n)
      (click (First close_button) ;;
       wait_for_timeout 300) ;;
    (* Switch to Gantt View *)
    n <- count gantt_button ;;
    when (0 <? n)
      (click gantt_button ;;
       wait_for_timeout 1000) ;;
    (* 5. Gantt view *)
    print "Taking screenshot: 05_gantt_view.png" ;;
    screenshot "docs/images/05_gantt_view.png" ;;
    (* Switch to Kanban View *)
    n <- count kanban_button ;;
    when (0 <? n)
      (click kanban_button ;;
       wait_for_timeout 1000) ;;
    (* 6. Kanban view *)
    print "Taking screenshot: 06_kanban_view.png" ;;
    screenshot "docs/images/06_kanban_view.png" ;;
    (* Switch to Network View *)
    n <- count network_button ;;
    when (0 <? n)
      (click network_button ;;
       wait_for_timeout 1000) ;;
    (* 7. Network view *)
    print "Taking screenshot: 07_network_view.png" ;;
    screenshot "docs/images/07_network_view.png" ;;
    (* Go back to list view for member management *)
    n <- count list_button ;;
    when (0 <? n)
      (click list_button ;;
       wait_for_timeout 500) ;;
    (* Open member management dialog *)
    n <- count member_button ;;
    when (0 <? n)
      (click member_button ;;
       wait_for_timeout 500) ;;
    (* 8. Member management dialog *)
    print "Taking screenshot: 08_member_dialog.png" ;;
    screenshot "docs/images/08_member_dialog.png" ;;
    (* Add a member *)
    n <- count add_member ;;
    when (0 <? n)
      (click add_member ;;
       wait_for_timeout 300 ;;
       i <- count name_input ;;
       when (0 <? i)
         (fill name_input "田中太郎" ;;
          wait_for_timeout 300)) ;;
    (* Close dialog *)
    n <- count close_buttons ;;
    when (0 <? n)
      (click (First close_buttons) ;;
       wait_for_timeout 300) ;;
    (* Open status management dialog *)
    n <- count status_button ;;
    when (0 <? n)
      (click status_button ;;
       wait_for_timeout 500) ;;
    (* 9. Status management dialog *)
    print "Taking screenshot: 09_status_dialog.png" ;;
    screenshot "docs/images/09_status_dialog.png" ;;
    browser_close ;;
    print "All screenshots taken successfully!".

Definition main : M unit := with_sync_playwright main_body.

(** The exit status the interpreter derives from the way [main] ended:
    0 for a return, 1 for an exception that escapes.  (What happens after
    the script, at interpreter shutdown, is not part of it.) *)
Definition exit_status (o : outcome unit) : nat :=
  match res o with
  | Ok _ => 0
  | Err _ => 1
  end.

(** An event put in front of what a continuation does. *)
Definition then_ {B} (e : event) (o : outcome B) : outcome B :=
  Outcome (res o) (after o) (e :: trace o).

Definition failed {B} (c : call) (x : exn) (w : World) : outcome B :=
  Outcome (Err x) w [Ev c (Raised x)].

(** ** Properties of programs, closed under sequencing *)

(** Every event a program records satisfies [Q]. *)
Definition always (Q : event -> Prop) {A} (m : M A) : Prop :=
  forall w, Forall Q (trace (m w)).

(** A program stops at the first call that raises, with that exception;
    if it returns, every call returned. *)
Definition stops_at (t : list event) {A} (r : result A) : Prop :=
  match r with
  | Ok _ => Forall (fun e => returned e = true) t
  | Err x =>
      exists pre c,
        t = pre ++ [Ev c (Raised x)] /\ Forall (fun e => returned e = true) pre
  end.

Definition clean {A} (m : M A) : Prop :=
  forall w, stops_at (trace (m w)) (res (m w)).

(** A program that returns has written exactly the files [L]. *)
Definition captures (L : list string) {A} (m : M A) : Prop :=
  forall w a, res (m w) = Ok a -> screenshots (trace (m w)) = L.

(** A program that returns has made the call [c], and [c] returned. *)
Definition reaches (c : call) {A} (m : M A) : Prop :=
  forall w a, res (m w) = Ok a -> exists v, In (Ev c (Returned v)) (trace (m w)).


(** ** More readings of a trace *)

Definition success_line : string := "All screenshots taken successfully!".

(** The locator a derived locator was built from, and the position of the
    element a call on it needs: [nth(i)] needs element [i], [first] and a
    plain locator need element 0. *)
Fixpoint base (l : locator) : locator :=
  match l with
  | Locator _ => l
  | Nth l' _ => base l'
  | First l' => base l'
  end.

Definition index_used (l : locator) : nat :=
  match l with
  | Nth _ i => i
  | _ => 0
  end.

(** The locator a call acts on, for the calls that need an element. *)
Definition acts_on (c : call) : option locator :=
  match c with
  | Click l => Some l
  | Fill l _ => Some l
  | _ => None
  end.

(** [e] is the look-up that makes the next call [c] safe: a count of the
    locator [c] acts on that returned more than the position [c] needs. *)
Definition checked_by (e : event) (c : option call) : Prop :=
  match c with
  | Some c' =>
      match acts_on c' with
      | Some l =>
          exists n, e = Ev (Count (base l)) (Returned n) /\ index_used l < n
      | None => True
      end
  | None => True
  end.

(** After a click, a fill or a key press that returned the script waits;
    after a text it presses a key. *)
Definition settles (e : event) (c : option call) : Prop :=
  match e with
  | Ev (Click _) (Returned _)
  | Ev (Fill _ _) (Returned _)
  | Ev (KeyboardPress _) (Returned _) =>
      match c with
      | Some (WaitForTimeout _) => True
      | _ => False
      end
  | Ev (KeyboardType _) (Returned _) =>
      match c with
      | Some (KeyboardPress _) => True
      | _ => False
      end
  | _ => True
  end.

Definition step_rule (e : event) (rest : list event) : Prop :=
  checked_by e (first_call rest) /\ settles e (first_call rest).

(** The time a call asks to pause, in milliseconds. *)
Definition pause_ms (c : call) : N :=
  match c with
  | WaitForTimeout ms => ms
  | Sleep seconds => 1000 * seconds
  | _ => 0
  end.

Definition total_pause (t : list event) : N :=
  fold_right (fun e acc => pause_ms (call_of e) + acc)%N 0%N t.

(** The calls that look at or touch the page. *)
Definition page_call (c : call) : bool :=
  match c with
  | Screenshot _ | Count _ | Click _ | WaitForTimeout _
  | KeyboardType _ | KeyboardPress _ | Fill _ _ => true
  | _ => false
  end.

Definition navigated (e : event) : bool :=
  match e with
  | Ev (Goto url) (Returned _) => String.eqb url "http://localhost:1420"
  | _ => false
  end.

Definition page_loaded (e : event) : bool :=
  match e with
  | Ev (WaitForLoadState st) (Returned _) => String.eqb st "networkidle"
  | _ => false
  end.

(** Going through a trace: no call that [needs] the gate before an event
    that [opens] it. *)
Fixpoint gated (opens : event -> bool) (needs : call -> bool) (seen : bool)
         (t : list event) : Prop :=
  match t with
  | [] => True
  | e :: rest =>
      (needs (call_of e) = true -> seen = true) /\
      gated opens needs (seen || opens e) rest
  end.

(** The file an event writes, and whether it looks for the add-task
    button. *)
Definition shot (e : event) : list string :=
  match e with
  | Ev (Screenshot p) (Returned _) => [p]
  | _ => []
  end.

Definition add_lookup (e : event) : list unit :=
  match e with
  | Ev (Count l) _ => if locator_eqb l add_button then [tt] else []
  | _ => []
  end.

Definition add_attempts (t : list event) : nat :=
  length (flat_map add_lookup t).

(** ** More properties of programs, closed under sequencing *)

(** The files written by a program are the first of [L], and all of [L]
    when it returns. *)
Definition captures_upto (L : list string) {A} (m : M A) : Prop :=
  forall w,
    (forall a, res (m w) = Ok a -> screenshots (trace (m w)) = L) /\
    exists rest, screenshots (trace (m w)) ++ rest = L.

Definition pauses_at_most (n : N) {A} (m : M A) : Prop :=
  forall w, (total_pause (trace (m w)) <= n)%N.

(** The call [c] is recorded as returned only by runs of the program
    that return. *)
Definition only_on_return (c : call) {A} (m : M A) : Prop :=
  forall w v, In (Ev c (Returned v)) (trace (m w)) -> exists a, res (m w) = Ok a.

(** A program that returns has recorded events that measure [L]. *)
Definition yields {T} (mu : event -> list T) (L : list T) {A} (m : M A) : Prop :=
  forall w a, res (m w) = Ok a -> flat_map mu (trace (m w)) = L.

(** Started after events that measure [L0], whenever the program makes
    the call [mark] the events so far measure [V]. *)
Definition marked {T} (mu : event -> list T) (mark : call) (V L0 : list T)
           {A} (m : M A) : Prop :=
  forall w pre r post,
    trace (m w) = pre ++ Ev mark r :: post -> L0 ++ flat_map mu pre = V.
(** ** Equations of the monad *)

Lemma bind_assoc {A B C} (m : M A) (f : A -> M B) (k : B -> M C) (w : World) :
  bind (bind m f) k w = bind m (fun x => bind (f x) k) w.
Proof.
  unfold bind; cbv zeta.
  destruct (res (m w)) as [a|e]; cbn [res after trace]; [|reflexivity].
  destruct (res (f a (after (m w)))) as [b|e]; cbn [res after trace].
  - now rewrite app_assoc.
  - reflexivity.
Qed.

Lemma trace_bind_ret {A B} (a : A) (k : A -> M B) (w : World) :
  trace (bind (ret a) k w) = trace (k a w).
Proof. reflexivity. Qed.

Lemma res_bind_ret {A B} (a : A) (k : A -> M B) (w : World) :
  res (bind (ret a) k w) = res (k a w).
Proof. reflexivity. Qed.

Lemma bind_action_cases {B} (P : outcome B -> Prop) c (k : unit -> M B) w :
  (forall x w', P (failed c x w')) ->
  (forall v w', P (then_ (Ev c (Returned v)) (k tt w'))) ->
  P (bind (action c) k w).
Proof.
  intros Hx Hv. unfold bind, action; cbv zeta; cbn [res after trace].
  destruct (respond w c) as [[v|x] w']; cbn [fst snd app].
  - apply Hv.
  - apply Hx.
Qed.

Lemma bind_perform_cases {B} (P : outcome B -> Prop) c (k : nat -> M B) w :
  (forall x w', P (failed c x w')) ->
  (forall v w', P (then_ (Ev c (Returned v)) (k v w'))) ->
  P (bind (perform c) k w).
Proof.
  intros Hx Hv. unfold bind, perform; cbv zeta; cbn [res after trace].
  destruct (respond w c) as [[v|x] w']; cbn [fst snd app].
  - apply Hv.
  - apply Hx.
Qed.

Lemma action_cases (P : outcome unit -> Prop) c w :
  (forall x w', P (failed c x w')) ->
  (forall v w', P (Outcome (Ok tt) w' [Ev c (Returned v)])) ->
  P (action c w).
Proof.
  intros Hx Hv. unfold action; cbv zeta.
  destruct (respond w c) as [[v|x] w']; cbn [fst snd]; [apply Hv|apply Hx].
Qed.

Lemma trace_bind {A B} (m : M A) (k : A -> M B) w :
  trace (bind m k w) =
  trace (m w) ++ match res (m w) with
                 | Ok a => trace (k a (after (m w)))
                 | Err _ => []
                 end.
Proof.
  unfold bind; cbv zeta. destruct (res (m w)); cbn [trace]; [reflexivity|].
  now rewrite app_nil_r.
Qed.

Lemma res_bind {A B} (m : M A) (k : A -> M B) w :
  res (bind m k w) =
  match res (m w) with
  | Ok a => res (k a (after (m w)))
  | Err x => Err x
  end.
Proof. unfold bind; cbv zeta. now destruct (res (m w)). Qed.

(** ** [always] is closed under the constructs of the script *)

Section Always.

Variable Q : event -> Prop.

Lemma always_ret {A} (a : A) : always Q (ret a).
Proof. intro w. constructor. Qed.

Lemma always_action c : (forall r, Q (Ev c r)) -> always Q (action c).
Proof. intros H w. repeat constructor. apply H. Qed.

Lemma always_perform c : (forall r, Q (Ev c r)) -> always Q (perform c).
Proof. intros H w. repeat constructor. apply H. Qed.

Lemma always_bind {A B} (m : M A) (k : A -> M B) :
  always Q m -> (forall a, always Q (k a)) -> always Q (bind m k).
Proof.
  intros Hm Hk w. rewrite trace_bind. apply Forall_app. split; [apply Hm|].
  destruct (res (m w)); [apply Hk | constructor].
Qed.

Lemma always_when b body : always Q body -> always Q (when b body).
Proof. intros H. destruct b; [exact H | apply always_ret]. Qed.

Lemma always_for_each {X} (xs : list X) f :
  (forall x, always Q (f x)) -> always Q (for_each xs f).
Proof.
  intros H. induction xs as [|x xs IH]; cbn [for_each].
  - apply always_ret.
  - apply always_bind; [apply H | intros _; exact IH].
Qed.

End Always.

(** ** [clean] is closed under the constructs of the script *)

Lemma clean_ret {A} (a : A) : clean (ret a).
Proof. intro w. constructor. Qed.

Lemma stops_at_single {A} c r (ok : A) :
  stops_at [Ev c r] (match r with Returned _ => Ok ok | Raised x => Err x end).
Proof.
  destruct r as [v|x]; cbn.
  - repeat constructor.
  - exists [], c. split; [reflexivity | constructor].
Qed.

Lemma clean_action c : clean (action c).
Proof.
  intro w. unfold action; cbv zeta; cbn [res trace].
  destruct (fst (respond w c)) as [v|x] eqn:E.
  - exact (stops_at_single c (Returned v) tt).
  - exact (stops_at_single c (Raised x) tt).
Qed.

Lemma clean_perform c : clean (perform c).
Proof.
  intro w. unfold perform; cbv zeta; cbn [res trace].
  destruct (fst (respond w c)) as [v|x] eqn:E.
  - exact (stops_at_single c (Returned v) v).
  - exact (stops_at_single c (Raised x) 0).
Qed.

Lemma clean_bind {A B} (m : M A) (k : A -> M B) :
  clean m -> (forall a, clean (k a)) -> clean (bind m k).
Proof.
  intros Hm Hk w. rewrite trace_bind, res_bind.
  specialize (Hm w). destruct (res (m w)) as [a|x]; cbn [stops_at] in Hm.
  - specialize (Hk a (after (m w))).
    destruct (res (k a (after (m w)))) as [b|y]; cbn [stops_at] in *.
    + apply Forall_app. now split.
    + destruct Hk as (pre & c & Ht & Hpre).
      exists (trace (m w) ++ pre), c. split.
      * now rewrite Ht, app_assoc.
      * apply Forall_app. now split.
  - now rewrite app_nil_r.
Qed.

Lemma clean_when b body : clean body -> clean (when b body).
Proof. intros H. destruct b; [exact H | apply clean_ret]. Qed.

Lemma clean_for_each {X} (xs : list X) f :
  (forall x, clean (f x)) -> clean (for_each xs f).
Proof.
  intros H. induction xs as [|x xs IH]; cbn [for_each].
  - apply clean_ret.
  - apply clean_bind; [apply H | intros _; exact IH].
Qed.

(** ** [captures] is closed under the constructs of the script *)

Lemma screenshots_app t1 t2 :
  screenshots (t1 ++ t2) = screenshots t1 ++ screenshots t2.
Proof. apply flat_map_app. Qed.

Lemma captures_ret {A} (a : A) : captures [] (ret a).
Proof. intros w b _. reflexivity. Qed.

Lemma captures_screenshot p : captures [p] (action (Screenshot p)).
Proof.
  intros w a. unfold action; cbv zeta; cbn [res trace].
  destruct (fst (respond w (Screenshot p))); [reflexivity | discriminate].
Qed.

Lemma captures_action c :
  (forall p, c <> Screenshot p) -> captures [] (action c).
Proof.
  intros Hc w a _. unfold action; cbv zeta; cbn [trace screenshots flat_map].
  destruct c; try reflexivity. now destruct (Hc path).
Qed.

Lemma captures_perform c :
  (forall p, c <> Screenshot p) -> captures [] (perform c).
Proof.
  intros Hc w a _. unfold perform; cbv zeta; cbn [trace screenshots flat_map].
  destruct c; try reflexivity. now destruct (Hc path).
Qed.

Lemma captures_bind {A B} L1 L2 (m : M A) (k : A -> M B) :
  captures L1 m -> (forall a, captures L2 (k a)) -> captures (L1 ++ L2) (bind m k).
Proof.
  intros Hm Hk w b. rewrite trace_bind, res_bind, screenshots_app.
  specialize (Hm w). destruct (res (m w)) as [a|x]; [|discriminate].
  intros Hb. now rewrite (Hm a eq_refl), (Hk a _ b Hb).
Qed.

Lemma captures_when b body : captures [] body -> captures [] (when b body).
Proof. intros H. destruct b; [exact H | apply captures_ret]. Qed.

Lemma captures_for_each {X} (xs : list X) f :
  (forall x, captures [] (f x)) -> captures [] (for_each xs f).
Proof.
  intros H. induction xs as [|x xs IH]; cbn [for_each].
  - apply captures_ret.
  - apply (captures_bind [] []); [apply H | intros _; exact IH].
Qed.

(** ** [reaches] along a sequence *)

Lemma reaches_action c : reaches c (action c).
Proof.
  intros w a. unfold action; cbv zeta; cbn [res trace].
  destruct (fst (respond w c)) as [v|x]; [|discriminate].
  intros _. exists v. now left.
Qed.

Lemma reaches_bind_l {A B} c (m : M A) (k : A -> M B) :
  reaches c m -> reaches c (bind m k).
Proof.
  intros H w b. rewrite res_bind, trace_bind. specialize (H w).
  destruct (res (m w)) as [a|x]; [|discriminate].
  intros _. destruct (H a eq_refl) as (v & Hv). exists v.
  apply in_or_app. now left.
Qed.

Lemma reaches_bind_r {A B} c (m : M A) (k : A -> M B) :
  (forall a, reaches c (k a)) -> reaches c (bind m k).
Proof.
  intros H w b. rewrite res_bind, trace_bind.
  destruct (res (m w)) as [a|x]; [|discriminate].
  intros Hb. destruct (H a _ b Hb) as (v & Hv). exists v.
  apply in_or_app. now right.
Qed.

(** ** The [with] block *)

Lemma with_cases {A} (P : outcome A -> Prop) (body : M A) w :
  (forall x w', P (failed SyncPlaywrightEnter x w')) ->
  (forall v w0 r w2,
      P (Outcome (match r with
                  | Raised x' => Err x'
                  | Returned _ => res (body w0)
                  end) w2
                 (Ev SyncPlaywrightEnter (Returned v)
                  :: trace (body w0) ++ [Ev SyncPlaywrightExit r]))) ->
  P (with_sync_playwright body w).
Proof.
  intros Hx Hv. unfold with_sync_playwright, action; cbv zeta; cbn [res after trace].
  destruct (respond w SyncPlaywrightEnter) as [[v|x] w0]; cbn [fst snd app].
  - destruct (respond (after (body w0)) SyncPlaywrightExit) as [[v'|x'] w2];
      cbn [fst snd].
    + exact (Hv v w0 (Returned v') w2).
    + exact (Hv v w0 (Raised x') w2).
  - apply Hx.
Qed.

(** ** Walking through the script *)

Ltac unfold_script :=
  unfold main_body, launch, new_page, goto, wait_for_load_state, sleep, print,
    screenshot, count, click, wait_for_timeout, keyboard_type, keyboard_press,
    fill, browser_close.

Ltac walk_always leaf :=
  repeat first
    [ apply always_bind; [|intro]
    | apply always_when
    | apply always_for_each; intro
    | apply always_ret
    | apply always_action; intro; leaf
    | apply always_perform; intro; leaf ].

Ltac walk_clean :=
  repeat first
    [ apply clean_bind; [|intro]
    | apply clean_when
    | apply clean_for_each; intro
    | apply clean_ret
    | apply clean_action
    | apply clean_perform ].

Ltac walk_captures :=
  repeat lazymatch goal with
  | |- captures ?L (bind _ _) =>
      tryif is_evar L
      then (eapply captures_bind; [|intro])
      else (apply (captures_bind [] []); [|intro])
  | |- captures _ (when _ _) => apply captures_when
  | |- captures _ (for_each _ _) => apply captures_for_each; intro
  | |- captures _ (ret _) => apply captures_ret
  | |- captures _ (action (Screenshot _)) => apply captures_screenshot
  | |- captures _ (action _) => apply captures_action; intro; discriminate
  | |- captures _ (perform _) => apply captures_perform; intro; discriminate
  end.

Lemma main_body_clean : clean main_body.
Proof. unfold_script. walk_clean. Qed.

Lemma main_body_literal :
  always (fun e => literal_call (call_of e) = true) main_body.
Proof. unfold_script. walk_always ltac:(vm_compute; reflexivity). Qed.

Lemma main_body_captures : captures (map image_path artifact_names) main_body.
Proof.
  assert (H : exists L, captures L main_body /\ L = map image_path artifact_names).
  { eexists; split; [unfold_script; walk_captures | reflexivity]. }
  destruct H as (L & H & ->). exact H.
Qed.

(** ** Where a trace can be cut *)

Lemma split_at_first_bad {X} (good : X -> Prop) pre x post A y B :
  pre ++ x :: post = A ++ y :: B ->
  Forall good A -> ~ good x ->
  (pre = A /\ x = y /\ post = B) \/
  (exists mid, pre = A ++ y :: mid /\ B = mid ++ x :: post).
Proof.
  revert pre. induction A as [|a A IH]; intros pre H HA Hx.
  - destruct pre as [|p pre]; cbn in H; inversion H; subst.
    + now left.
    + right. now exists pre.
  - inversion HA as [|? ? Ha HA']; subst.
    destruct pre as [|p pre]; cbn in H; inversion H; subst.
    + contradiction.
    + destruct (IH pre H2 HA' Hx) as [(-> & -> & ->)|(mid & -> & ->)].
      * now left.
      * right. now exists mid.
Qed.

Lemma raised_not_returned c x : ~ returned (Ev c (Raised x)) = true.
Proof. discriminate. Qed.

(** In a run of [main], a step that raises is the last step: the events
    before it returned, only leaving the [with] block follows, and the
    body of the block ended with that exception. *)
Lemma main_failure (w : World) pre c x post :
  trace (main w) = pre ++ Ev c (Raised x) :: post ->
  script_step c = true ->
  Forall (fun e => returned e = true) pre /\
  exists r, post = [Ev SyncPlaywrightExit r] /\
            res (main w) = match r with
                           | Raised x' => Err x'
                           | Returned _ => Err x
                           end.
Proof.
  unfold main. pattern (with_sync_playwright main_body w). apply with_cases.
  - intros x0 w'; cbn [trace failed]. intros H Hc.
    destruct pre as [|p [|q pre]]; cbn in H; inversion H; subst. discriminate.
  - intros v w0 r w2; cbn [trace res]. intros H Hc.
    pose proof (main_body_clean w0) as Hb.
    destruct (res (main_body w0)) as [[]|y]; cbn [stops_at] in Hb.
    + exfalso. symmetry in H.
      change (Ev SyncPlaywrightEnter (Returned v)
              :: trace (main_body w0) ++ [Ev SyncPlaywrightExit r])
        with ((Ev SyncPlaywrightEnter (Returned v) :: trace (main_body w0))
              ++ Ev SyncPlaywrightExit r :: []) in H.
      destruct (split_at_first_bad (fun e => returned e = true) _ _ _ _ _ _ H)
        as [(_ & E & _)|(mid & _ & E)].
      * constructor; [reflexivity | exact Hb].
      * apply raised_not_returned.
      * inversion E; subst. discriminate.
      * destruct mid; discriminate.
    + destruct Hb as (pre' & c' & Ht & Hpre). rewrite Ht in H.
      symmetry in H. rewrite <- app_assoc in H; cbn [app] in H.
      change (Ev SyncPlaywrightEnter (Returned v)
              :: pre' ++ Ev c' (Raised y) :: [Ev SyncPlaywrightExit r])
        with ((Ev SyncPlaywrightEnter (Returned v) :: pre')
              ++ Ev c' (Raised y) :: [Ev SyncPlaywrightExit r]) in H.
      destruct (split_at_first_bad (fun e => returned e = true) _ _ _ _ _ _ H)
        as [(-> & E & ->)|(mid & _ & E)].
      * constructor; [reflexivity | exact Hpre].
      * apply raised_not_returned.
      * inversion E; subst. split.
        -- constructor; [reflexivity | exact Hpre].
        -- exists r. split; [reflexivity | now destruct r].
      * destruct mid as [|m [|m' mid]]; inversion E; subst. discriminate.
Qed.

(** The body of the block creates the session first: it launches the
    browser, then opens the page, and never does either again. *)
Lemma main_body_session (w : World) :
  exists r1 rest,
    trace (main_body w) = Ev (Launch true) r1 :: rest /\
    match r1 with
    | Raised _ => rest = []
    | Returned _ =>
        exists r2 rest',
          rest = Ev (NewPage 1280 800) r2 :: rest' /\
          Forall (fun e => session_call (call_of e) = false) rest'
    end.
Proof.
  unfold_script.
  match goal with |- context [bind (action ?c) ?k w] =>
    pattern (bind (action c) k w); apply bind_action_cases end.
  - intros x w'. exists (Raised x), []. now split.
  - intros v w'. exists (Returned v). eexists. split; [reflexivity|].
    cbn [trace then_].
    match goal with |- context [bind (action ?c) ?k w'] =>
      pattern (bind (action c) k w'); apply bind_action_cases end.
    + intros x w''. exists (Raised x), []. split; [reflexivity | constructor].
    + intros v' w''. exists (Returned v'). eexists. split; [reflexivity|].
      cbn [trace then_].
      match goal with |- Forall ?Q (trace (?m ?s)) =>
        revert s; change (always Q m) end.
      walk_always ltac:(reflexivity).
Qed.

Lemma main_body_closes : reaches BrowserClose main_body.
Proof.
  unfold_script.
  repeat first
    [ apply reaches_bind_l, reaches_action
    | apply reaches_bind_r; intro ].
Qed.

(** ** Stepping through the script call by call *)

Lemma bind_ret_l {A B} (a : A) (k : A -> M B) (w : World) :
  bind (ret a) k w = k a w.
Proof. unfold bind, ret; cbv zeta; cbn [res after trace app]. now destruct (k a w). Qed.

Ltac norm_head :=
  repeat first
    [ rewrite bind_assoc
    | rewrite bind_ret_l
    | progress cbn [when for_each] ].

Ltac on_action tac_failed tac_then :=
  lazymatch goal with
  | |- context [bind (action ?c) ?k ?w] =>
      pattern (bind (action c) k w); apply bind_action_cases;
      [ intros ?x ?w'; cbn [trace res failed]; tac_failed
      | intros ?v ?w'; cbn [trace res then_]; tac_then ]
  end.

Ltac on_perform tac_failed tac_then :=
  lazymatch goal with
  | |- context [bind (perform ?c) ?k ?w] =>
      pattern (bind (perform c) k w); apply bind_perform_cases;
      [ intros ?x ?w'; cbn [trace res failed]; tac_failed
      | intros ?v ?w'; cbn [trace res then_]; tac_then ]
  end.

Lemma locator_eqb_eq a b : locator_eqb a b = true -> a = b.
Proof.
  revert b. induction a as [s|l IH i|l IH]; intros [t|m j|m]; cbn; try discriminate.
  - intros H. apply String.eqb_eq in H. now subst.
  - intros H. apply andb_true_iff in H as [H1 H2].
    apply Nat.eqb_eq in H2. now rewrite (IH m H1), H2.
  - intros H. now rewrite (IH m H).
Qed.

(** ** The first capture comes before any interaction *)

Lemma capture_first_seen t : capture_first true t.
Proof. induction t as [|e t IH]; cbn [capture_first orb]; auto. Qed.

Lemma capture_first_leave seen t r :
  capture_first seen t -> capture_first seen (t ++ [Ev SyncPlaywrightExit r]).
Proof.
  revert seen. induction t as [|e t IH]; intros seen; cbn [app capture_first].
  - intros _. split; [discriminate | exact I].
  - intros [H1 H2]. split; [exact H1 | now apply IH].
Qed.

Lemma capture_first_split seen t pre c r post :
  capture_first seen t ->
  t = pre ++ Ev c r :: post ->
  interaction c = true ->
  seen = true \/
  exists v, In (Ev (Screenshot (image_path "01_empty_list_view.png")) (Returned v)) pre.
Proof.
  revert seen t. induction pre as [|e pre IH]; intros seen t Ht -> Hc.
  - left. now apply Ht.
  - destruct Ht as [_ Ht].
    destruct (IH _ _ Ht eq_refl Hc) as [H|(v & H)].
    + apply orb_true_iff in H as [H|H]; [now left | right].
      destruct e as [[] [v|]]; try discriminate H.
      exists v. left. apply String.eqb_eq in H. now rewrite H.
    + right. exists v. now right.
Qed.

Lemma main_body_capture_first (w : World) :
  capture_first false (trace (main_body w)).
Proof.
  unfold_script.
  do 6 on_action ltac:(cbn; intuition discriminate)
                 ltac:(cbn [capture_first]; split; [discriminate|];
                       cbn [orb first_capture]).
  on_action ltac:(cbn; intuition discriminate)
            ltac:(cbn [capture_first]; split; [discriminate|]).
  apply capture_first_seen.
Qed.

Lemma main_capture_first (w : World) :
  capture_first false (trace (main w)).
Proof.
  unfold main. pattern (with_sync_playwright main_body w). apply with_cases.
  - intros x w'. cbn. intuition discriminate.
  - intros v w0 r w2. cbn [trace capture_first]. split; [discriminate|].
    apply capture_first_leave, main_body_capture_first.
Qed.

(** ** Six add-task rounds before the second capture *)

Lemma six_lost seen t : six_before_second false seen t.
Proof.
  revert seen. induction t as [|e t IH]; intros seen; cbn [six_before_second andb].
  - exact I.
  - split; [discriminate | apply IH].
Qed.

Lemma six_no_second found seen t :
  Forall (fun e => call_of e <> second_capture) t ->
  six_before_second found seen t.
Proof.
  intros H. revert found seen.
  induction H as [|e t He _ IH]; intros found seen; cbn [six_before_second].
  - exact I.
  - split; [intros E; now destruct (He E) | apply IH].
Qed.

Lemma six_app found seen t t' :
  six_before_second found seen t ->
  Forall (fun e => call_of e <> second_capture) t' ->
  six_before_second found seen (t ++ t').
Proof.
  revert found seen. induction t as [|e t IH]; intros found seen; cbn [app].
  - intros _ H. now apply six_no_second.
  - cbn [six_before_second]. intros [H1 H2] H. split; [exact H1 | now apply IH].
Qed.

Lemma six_split found seen t pre r post :
  six_before_second found seen t ->
  t = pre ++ Ev second_capture r :: post ->
  found = true ->
  (forall n, In (Ev (Count add_button) (Returned n)) pre -> 0 < n) ->
  rev seen ++ interactions pre = six_add_tasks.
Proof.
  revert found seen t. induction pre as [|e pre IH]; intros found seen t Ht -> Hf Hpos.
  - destruct Ht as [Ht _]. cbn [interactions map filter]. rewrite app_nil_r.
    now apply Ht.
  - destruct Ht as [_ Ht]. cbn [app] in Ht.
    assert (Hm : add_attempt_missed e = false).
    { destruct (add_attempt_missed e) eqn:E; [|reflexivity]. exfalso.
      destruct e as [[] [[|n]|]]; try discriminate E. cbn in E.
      apply locator_eqb_eq in E. subst l.
      apply (Nat.lt_irrefl 0), Hpos. now left. }
    rewrite Hf, Hm in Ht. cbn [andb negb] in Ht.
    specialize (IH _ _ _ Ht eq_refl eq_refl (fun n H => Hpos n (or_intror H))).
    unfold interactions in *. cbn [map filter].
    destruct (interaction (call_of e)); [|exact IH].
    cbn [rev] in IH. now rewrite <- app_assoc in IH.
Qed.

Ltac not_second := first [ discriminate | intros _ _; reflexivity ].

Ltac six_action :=
  on_action ltac:(cbn [six_before_second call_of]; split; [not_second | exact I])
            ltac:(cbn [six_before_second call_of]; split; [not_second|];
                  cbn [andb negb add_attempt_missed interaction]).

Ltac six_round :=
  norm_head;
  on_perform ltac:(cbn [six_before_second call_of]; split; [not_second | exact I])
             ltac:(cbn [six_before_second call_of]; split; [not_second|]);
  match goal with v : nat |- _ =>
    destruct v as [|?n];
    [ apply six_lost
    | cbn [andb negb add_attempt_missed interaction Nat.ltb Nat.leb];
      norm_head; do 5 (norm_head; six_action) ]
  end.

Lemma main_body_six (w : World) :
  six_before_second true [] (trace (main_body w)).
Proof.
  unfold_script. unfold tasks.
  do 7 six_action.
  do 6 six_round.
  norm_head. do 2 six_action.
  apply six_no_second.
  match goal with |- Forall ?Q (trace (?m ?s)) =>
    revert s; change (always Q m) end.
  walk_always ltac:(cbn [call_of]; discriminate).
Qed.

(** ** What follows a count and an announcement *)

Lemma first_call_bind_action {B} c (k : unit -> M B) w :
  first_call (trace (bind (action c) k w)) = Some c.
Proof. now rewrite trace_bind. Qed.

Lemma first_call_bind_perform {B} c (k : nat -> M B) w :
  first_call (trace (bind (perform c) k w)) = Some c.
Proof. now rewrite trace_bind. Qed.

Lemma next_call_of_first cs c t :
  first_call t = Some c -> In c cs -> next_call cs t.
Proof. destruct t as [|e t]; cbn; [discriminate|]. now intros [= ->]. Qed.

Lemma next_call_app cs t t' : next_call cs t -> next_call cs (t ++ t').
Proof. now destruct t. Qed.

Lemma guard_rule_count l n g rest :
  lookup_guard l = Some g ->
  (n <= bound g -> next_call (next_step g) rest) ->
  (bound g < n -> next_call [first_action g] rest) ->
  guard_rule (Ev (Count l) (Returned n)) rest.
Proof. intros E H1 H2. cbn [guard_rule]. rewrite E. now split. Qed.

Lemma guard_rule_print line name v rest :
  announced line = Some name ->
  next_call [Screenshot (image_path name)] rest ->
  guard_rule (Ev (Print line) (Returned v)) rest.
Proof. intros E H. cbn [guard_rule]. now rewrite E. Qed.

Lemma guard_rule_print_none line r rest :
  announced line = None -> guard_rule (Ev (Print line) r) rest.
Proof. intros E. destruct r; cbn [guard_rule]; [now rewrite E | exact I]. Qed.

Lemma guard_rule_app e rest t' : guard_rule e rest -> guard_rule e (rest ++ t').
Proof.
  destruct e as [[] [n|x]]; cbn [guard_rule]; try exact (fun H => H).
  - destruct (announced line); [apply next_call_app | exact (fun H => H)].
  - destruct (lookup_guard l); [|exact (fun H => H)].
    intros [H1 H2]. split; intros H; apply next_call_app; auto.
Qed.

Lemma suffixes_leave t r :
  suffixes_ok guard_rule t ->
  suffixes_ok guard_rule (t ++ [Ev SyncPlaywrightExit r]).
Proof.
  induction t as [|e t IH]; cbn [app suffixes_ok].
  - intros _. split; exact I.
  - intros [H1 H2]. split; [now apply guard_rule_app | now apply IH].
Qed.

Lemma suffixes_split phi t pre e post :
  suffixes_ok phi t -> t = pre ++ e :: post -> phi e post.
Proof.
  revert t. induction pre as [|p pre IH]; intros t Ht ->.
  - apply Ht.
  - destruct Ht as [_ Ht]. now apply (IH _ Ht).
Qed.

(** Proving a property of a program once for what comes after a block. *)
Lemma with_continuation (K : unit -> M unit) (c0 : call)
      (G : (unit -> M unit) -> Prop) :
  (forall w, suffixes_ok guard_rule (trace (K tt w))) ->
  (forall w, first_call (trace (K tt w)) = Some c0) ->
  (forall Kc,
      (forall w, suffixes_ok guard_rule (trace (Kc tt w))) ->
      (forall w, first_call (trace (Kc tt w)) = Some c0) ->
      G Kc) ->
  G K.
Proof. intros H1 H2 H. now apply H. Qed.

Ltac norm_prog := repeat first [ progress cbv beta | progress norm_head ].

Ltac head_call :=
  norm_prog;
  first
    [ apply first_call_bind_action
    | apply first_call_bind_perform
    | match goal with
      | H : forall w, first_call (trace (?K tt w)) = Some _
        |- first_call (trace (?K tt _)) = _ => apply H
      end ].

Ltac in_list :=
  cbn [In next_step first_action];
  first [ left; reflexivity | right; left; reflexivity ].

Ltac solve_next := eapply next_call_of_first; [head_call | in_list].

Ltac print_rule :=
  first
    [ apply guard_rule_print_none; reflexivity
    | eapply guard_rule_print; [reflexivity | solve_next] ].

Ltac gr_step :=
  norm_prog;
  lazymatch goal with
  | H : forall w, suffixes_ok guard_rule (trace (?K tt w))
    |- suffixes_ok guard_rule (trace (?K tt _)) => apply H
  | |- suffixes_ok guard_rule (trace (bind (action (Print _)) _ _)) =>
      on_action ltac:(cbn [suffixes_ok]; split; exact I)
                ltac:(cbn [suffixes_ok]; split; [print_rule | gr_step])
  | |- suffixes_ok guard_rule (trace (bind (action _) _ _)) =>
      on_action ltac:(cbn [suffixes_ok]; split; exact I)
                ltac:(cbn [suffixes_ok]; split; [exact I | gr_step])
  | |- suffixes_ok guard_rule (trace (action (Print ?line) ?w)) =>
      pattern (action (Print line) w); apply action_cases;
      [ intros ? ?; cbn [trace failed suffixes_ok]; split; exact I
      | intros ? ?; cbn [trace suffixes_ok]; split; [print_rule | exact I] ]
  | |- suffixes_ok guard_rule (trace (bind (perform (Count _)) _ _)) =>
      on_perform ltac:(cbn [suffixes_ok]; split; exact I)
                 ltac:(cbn [suffixes_ok]; gr_block)
  end
with gr_block :=
  lazymatch goal with
  | |- context [bind (when _ _) ?K _] =>
      pattern K; eapply with_continuation;
      [ intro; gr_step
      | intro; head_call
      | let Kc := fresh "Kc" in
        let HK := fresh "HK" in
        let HN := fresh "HN" in
        intros Kc HK HN; cbv beta;
        lazymatch goal with
        | |- context [Nat.ltb ?b ?n] =>
            destruct (Nat.ltb_spec b n); cbn [when]; split;
            [ eapply guard_rule_count;
              [ reflexivity
              | intro; exfalso; cbn [bound] in *; lia
              | intros _; solve_next ]
            | gr_step
            | eapply guard_rule_count;
              [ reflexivity
              | intros _; solve_next
              | intro; exfalso; cbn [bound] in *; lia ]
            | gr_step ]
        end ]
  end.

Lemma main_body_guard_rule (w : World) :
  suffixes_ok guard_rule (trace (main_body w)).
Proof. unfold_script; unfold tasks. gr_step. Qed.

Lemma main_guard_rule (w : World) :
  suffixes_ok guard_rule (trace (main w)).
Proof.
  unfold main. pattern (with_sync_playwright main_body w). apply with_cases.
  - intros x w'. split; exact I.
  - intros v w0 r w2. cbn [trace suffixes_ok]. split; [exact I|].
    apply suffixes_leave, main_body_guard_rule.
Qed.

Lemma main_six (w : World) :
  six_before_second true [] (trace (main w)).
Proof.
  unfold main. pattern (with_sync_playwright main_body w). apply with_cases.
  - intros x w'. split; [discriminate | exact I].
  - intros v w0 r w2. cbn [trace six_before_second]. split; [discriminate|].
    apply six_app; [apply main_body_six|].
    constructor; [discriminate | constructor].
Qed.

Lemma next_steps_are_not_actions g :
  In g guards -> Forall (fun c => interaction c = false) (next_step g).
Proof.
  revert g. apply Forall_forall. repeat constructor.
Qed.

(** After a count of the subtask buttons that does not exceed 1, the
    third capture is announced next, and taken once the announcement has
    been printed. *)
Lemma after_subtask_skip (w : World) pre n post :
  trace (main w) = pre ++ Ev (Count subtask_buttons) (Returned n) :: post ->
  n <= 1 ->
  exists r0 post1,
    post = Ev (Print "Taking screenshot: 03_list_view_hierarchy.png") r0 :: post1 /\
    forall v, r0 = Returned v ->
      exists r post',
        post1 = Ev (Screenshot "docs/images/03_list_view_hierarchy.png") r :: post'.
Proof.
  intros H Hn.
  pose proof (suffixes_split _ _ _ _ _ (main_guard_rule w) H) as [H1 _].
  specialize (H1 Hn). destruct post as [|[c0 r0] post]; [contradiction|].
  destruct H1 as [E|[]]. cbn [call_of] in E. subst c0.
  exists r0, post. split; [reflexivity|]. intros v ->.
  change (pre ++ Ev (Count subtask_buttons) (Returned n) :: ?e :: post)
    with (pre ++ [Ev (Count subtask_buttons) (Returned n)] ++ e :: post) in H.
  rewrite app_assoc in H.
  pose proof (suffixes_split _ _ _ _ _ (main_guard_rule w) H) as H2.
  destruct post as [|[c1 r1] post]; [contradiction|].
  destruct H2 as [E|[]]. cbn [call_of] in E. subst c1.
  now exists r1, post.
Qed.

(** ** The claims about failure, completion and the session *)

(** C3, as amended: when a step of the script raises, [main] fails with
    the very exception the step raised: it is not wrapped, and no step
    index is attached (as long as leaving the [with] block returns). *)
Theorem failing_step_raises_its_cause (w : World) pre c x post :
  trace (main w) = pre ++ Ev c (Raised x) :: post ->
  script_step c = true ->
  Forall (fun e => returned e = true) post ->
  res (main w) = Err x.
Proof.
  intros H Hc Hpost.
  destruct (main_failure w pre c x post H Hc) as (_ & r & -> & Hres).
  rewrite Hres. destruct r as [v|x']; [reflexivity|].
  inversion Hpost; subst. discriminate.
Qed.

(** C7: a run of [main] that returns has taken exactly the nine
    screenshots, 01_empty_list_view.png to 09_status_dialog.png, in that
    order, whatever the page showed: no capture is ever skipped. *)
Theorem complete_run_takes_nine (w : World) :
  res (main w) = Ok tt ->
  screenshots (trace (main w)) = map image_path artifact_names /\
  length (screenshots (trace (main w))) = 9.
Proof.
  unfold main. pattern (with_sync_playwright main_body w). apply with_cases.
  - intros x w'; cbn [res failed]. discriminate.
  - intros v w0 r w2; cbn [res trace]. intros Hres.
    assert (Hb : res (main_body w0) = Ok tt) by (destruct r; [exact Hres | discriminate]).
    assert (E : screenshots (Ev SyncPlaywrightEnter (Returned v)
                             :: trace (main_body w0) ++ [Ev SyncPlaywrightExit r])
                = map image_path artifact_names).
    { change (screenshots (Ev SyncPlaywrightEnter (Returned v) :: ?t))
        with (screenshots t).
      rewrite screenshots_app, (main_body_captures w0 tt Hb).
      apply app_nil_r. }
    rewrite E. split; reflexivity.
Qed.

(** C8: the session is scoped by the [with] block.  Either entering the
    block raises and nothing was created, or the run launches one
    browser, then opens one page in it, creates nothing else, and in
    every outcome, returning or raising, the last thing done is to leave
    the block, which releases the session.  A run that returns has also
    closed the browser itself before leaving. *)
Theorem session_is_scoped (w : World) :
  (exists x, trace (main w) = [Ev SyncPlaywrightEnter (Raised x)] /\
             res (main w) = Err x) \/
  (exists v r1 rest r,
      trace (main w) =
        Ev SyncPlaywrightEnter (Returned v) :: Ev (Launch true) r1
        :: rest ++ [Ev SyncPlaywrightExit r] /\
      match r1 with
      | Raised _ => rest = []
      | Returned _ =>
          exists r2 rest',
            rest = Ev (NewPage 1280 800) r2 :: rest' /\
            Forall (fun e => session_call (call_of e) = false) rest'
      end /\
      (res (main w) = Ok tt -> exists v', In (Ev BrowserClose (Returned v')) rest)).
Proof.
  unfold main. pattern (with_sync_playwright main_body w). apply with_cases.
  - intros x w'. left. exists x. now split.
  - intros v w0 r w2. right. cbn [trace res].
    pose proof (main_body_closes w0 tt) as Hc.
    destruct (main_body_session w0) as (r1 & rest & E & H). rewrite E in *.
    exists v, r1, rest, r. split; [reflexivity|]. split; [exact H|].
    intros Hres.
    assert (Hb : res (main_body w0) = Ok tt) by (destruct r; [exact Hres | discriminate]).
    destruct (Hc Hb) as (v' & [Hv|Hv]); [discriminate | now exists v'].
Qed.

(** ** The claims about the conditional blocks and the order of steps *)

(** C1: whenever the locator of one of the script's [if ... count() > k]
    blocks matches nothing, the block does nothing: the count returns,
    and the very next call is the one that starts the following
    statement, a count or an announcement and never a click, a key or a
    text. *)
Theorem absent_target_skips_block (w : World) pre l post :
  trace (main w) = pre ++ Ev (Count l) (Returned 0) :: post ->
  exists g e post',
    lookup_guard l = Some g /\
    post = e :: post' /\
    In (call_of e) (next_step g) /\
    interaction (call_of e) = false.
Proof.
  intros H.
  pose proof (suffixes_split _ _ _ _ _ (main_guard_rule w) H) as Hg.
  cbn [guard_rule] in Hg. destruct (lookup_guard l) as [g|] eqn:E; [|contradiction].
  destruct Hg as [Hg _]. specialize (Hg (Nat.le_0_l _)).
  destruct post as [|e post']; [contradiction|]. cbn [next_call] in Hg.
  exists g, e, post'. repeat split; [exact Hg|].
  apply find_some in E as [E _].
  pose proof (next_steps_are_not_actions g E) as Hall.
  rewrite Forall_forall in Hall. now apply Hall.
Qed.

(** C4: in a run that reaches the second capture with every add attempt
    before it having found the add-task button, the clicks, texts and
    keys before that capture are exactly the six rounds: click the
    button, type the name of the task, press Enter. *)
Theorem six_adds_before_second_capture (w : World) pre r post :
  trace (main w) =
    pre ++ Ev (Screenshot "docs/images/02_list_view_with_tasks.png") r :: post ->
  (forall n, In (Ev (Count add_button) (Returned n)) pre -> 0 < n) ->
  interactions pre = six_add_tasks /\
  length (filter (fun c => match c with Click _ => true | _ => false end)
                 (interactions pre)) = 6.
Proof.
  intros H Hpos.
  assert (E : interactions pre = six_add_tasks).
  { exact (six_split true [] _ pre r post (main_six w) H eq_refl Hpos). }
  rewrite E. split; reflexivity.
Qed.

(** C5: when the subtask locator matches nothing, none of the subtask
    interactions happens and the skipped block raises nothing: the very
    next call announces the hierarchy capture, and once that line has
    been printed the screenshot of 03_list_view_hierarchy.png is taken. *)
Theorem missing_subtask_button_still_captures (w : World) pre post :
  trace (main w) = pre ++ Ev (Count subtask_buttons) (Returned 0) :: post ->
  exists r0 post1,
    post = Ev (Print "Taking screenshot: 03_list_view_hierarchy.png") r0 :: post1 /\
    forall v, r0 = Returned v ->
      exists r post',
        post1 = Ev (Screenshot "docs/images/03_list_view_hierarchy.png") r :: post'.
Proof. intros H. apply (after_subtask_skip w pre 0 post H). lia. Qed.

(** C6: in every run, whatever clicks, types, presses a key or fills a
    field comes after the first capture, 01_empty_list_view.png, has
    returned. *)
Theorem first_capture_before_interaction (w : World) pre c r post :
  trace (main w) = pre ++ Ev c r :: post ->
  interaction c = true ->
  exists v,
    In (Ev (Screenshot "docs/images/01_empty_list_view.png") (Returned v)) pre.
Proof.
  intros H Hc.
  destruct (capture_first_split false _ pre c r post (main_capture_first w) H Hc)
    as [E|E]; [discriminate | exact E].
Qed.

(** C10: one subtask button is not enough.  With exactly one match the
    subtask block is passed over: the next call announces the hierarchy
    capture, which is taken once the line has been printed.  The block,
    whose first call clicks the second button, [nth(1)], is entered
    exactly when there are at least two. *)
Theorem one_subtask_button_is_not_enough (w : World) pre n post :
  trace (main w) = pre ++ Ev (Count subtask_buttons) (Returned n) :: post ->
  (n = 1 ->
   exists r0 post1,
     post = Ev (Print "Taking screenshot: 03_list_view_hierarchy.png") r0 :: post1 /\
     forall v, r0 = Returned v ->
       exists r post',
         post1 = Ev (Screenshot "docs/images/03_list_view_hierarchy.png") r :: post') /\
  (first_call post = Some (Click (Nth subtask_buttons 1)) <-> 1 < n).
Proof.
  intros H. split.
  - intros ->. apply (after_subtask_skip w pre 1 post H). lia.
  - pose proof (suffixes_split _ _ _ _ _ (main_guard_rule w) H) as [H1 H2].
    split.
    + intros E. destruct (Nat.lt_ge_cases 1 n) as [Hn|Hn]; [exact Hn|].
      specialize (H1 Hn). destruct post as [|e post]; [contradiction|].
      cbn [first_call] in E. injection E as E.
      destruct H1 as [E'|[]]. rewrite E in E'. discriminate.
    + intros Hn. specialize (H2 Hn). destruct post as [|e post]; [contradiction|].
      destruct H2 as [E|[]]. cbn [first_call]. now rewrite <- E.
Qed.

(** ** Further properties of the script *)

Lemma main_literal (w : World) :
  Forall (fun e => literal_call (call_of e) = true) (trace (main w)).
Proof.
  unfold main. pattern (with_sync_playwright main_body w). apply with_cases.
  - intros x w'. repeat constructor.
  - intros v w0 r w2; cbn [trace]. constructor; [reflexivity|].
    apply Forall_app. split; [apply main_body_literal | repeat constructor].
Qed.

Lemma main_clean (w : World) :
  match res (main w) with
  | Ok _ => Forall (fun e => returned e = true) (trace (main w))
  | Err _ => ~ Forall (fun e => returned e = true) (trace (main w))
  end.
Proof.
  unfold main. pattern (with_sync_playwright main_body w). apply with_cases.
  - intros x w'. cbn [res trace failed]. intros H. inversion H; subst. discriminate.
  - intros v w0 r w2. cbn [res trace].
    pose proof (main_body_clean w0) as Hb.
    assert (Hbad : forall y, res (main_body w0) = Err y ->
                   ~ Forall (fun e => returned e = true) (trace (main_body w0))).
    { intros y Hy. rewrite Hy in Hb. destruct Hb as (pre & c & -> & _).
      intros H. apply Forall_app in H as [_ H]. inversion H; subst. discriminate. }
    destruct r as [v'|x'].
    + destruct (res (main_body w0)) as [a|y] eqn:E.
      * constructor; [reflexivity|]. apply Forall_app. split; [exact Hb|].
        repeat constructor.
      * intros H. inversion H as [|? ? _ H']; subst.
        apply Forall_app in H' as [H' _]. exact (Hbad y eq_refl H').
    + intros H. inversion H as [|? ? _ H']; subst.
      apply Forall_app in H' as [_ H']. inversion H'; subst. discriminate.
Qed.

(** ** [captures_upto] is closed under the constructs of the script *)

Lemma captures_upto_ret {A} (a : A) : captures_upto [] (ret a).
Proof. intros w. split; [reflexivity | now exists []]. Qed.

Lemma captures_upto_screenshot p : captures_upto [p] (action (Screenshot p)).
Proof.
  intros w. unfold action; cbv zeta; cbn [res trace].
  destruct (fst (respond w (Screenshot p))); cbn.
  - split; [reflexivity | now exists []].
  - split; [discriminate | now exists [p]].
Qed.

Lemma captures_upto_quiet {A} (m : M A) :
  always (fun e => shot e = []) m -> captures_upto [] m.
Proof.
  intros H w. specialize (H w).
  assert (E : screenshots (trace (m w)) = []).
  { induction H as [|e t He _ IH]; [reflexivity|].
    change (screenshots (e :: t)) with (shot e ++ screenshots t).
    now rewrite He, IH. }
  rewrite E. split; [reflexivity | now exists []].
Qed.

Lemma captures_upto_bind {A B} L1 L2 (m : M A) (k : A -> M B) :
  captures_upto L1 m -> (forall a, captures_upto L2 (k a)) ->
  captures_upto (L1 ++ L2) (bind m k).
Proof.
  intros Hm Hk w. rewrite trace_bind, res_bind, screenshots_app.
  destruct (Hm w) as [Hm1 (r1 & Hm2)]. destruct (res (m w)) as [a|x].
  - destruct (Hk a (after (m w))) as [Hk1 (r2 & Hk2)]. rewrite (Hm1 a eq_refl).
    split.
    + intros b Hb. now rewrite (Hk1 b Hb).
    + exists r2. now rewrite <- app_assoc, Hk2.
  - split; [discriminate|]. exists (r1 ++ L2).
    cbn [screenshots flat_map]. now rewrite app_nil_r, app_assoc, Hm2.
Qed.

(** ** [pauses_at_most] is closed under the constructs of the script *)

Lemma total_pause_app t1 t2 :
  total_pause (t1 ++ t2) = (total_pause t1 + total_pause t2)%N.
Proof.
  induction t1 as [|e t1 IH]; cbn [app total_pause fold_right]; [reflexivity|].
  fold (total_pause (t1 ++ t2)). fold (total_pause t1). rewrite IH. lia.
Qed.

Lemma pauses_ret {A} (a : A) : pauses_at_most 0 (ret a).
Proof. intros w. cbn. lia. Qed.

Lemma pauses_action c : pauses_at_most (pause_ms c) (action c).
Proof. intros w. cbn [action trace total_pause fold_right call_of]. lia. Qed.

Lemma pauses_perform c : pauses_at_most (pause_ms c) (perform c).
Proof. intros w. cbn [perform trace total_pause fold_right call_of]. lia. Qed.

Lemma pauses_bind {A B} n1 n2 (m : M A) (k : A -> M B) :
  pauses_at_most n1 m -> (forall a, pauses_at_most n2 (k a)) ->
  pauses_at_most (n1 + n2) (bind m k).
Proof.
  intros Hm Hk w. rewrite trace_bind, total_pause_app.
  specialize (Hm w). destruct (res (m w)) as [a|x].
  - specialize (Hk a (after (m w))). lia.
  - cbn [total_pause fold_right]. lia.
Qed.

Lemma pauses_when n b body :
  pauses_at_most n body -> pauses_at_most n (when b body).
Proof. intros H. destruct b; [exact H|]. intros w. cbn. lia. Qed.

Lemma pauses_weaken {A} n n' (m : M A) :
  pauses_at_most n m -> (n <= n')%N -> pauses_at_most n' m.
Proof. intros H Hn w. specialize (H w). lia. Qed.

(** ** [only_on_return] along a sequence *)

Lemma only_on_return_action c : only_on_return c (action c).
Proof.
  intros w v. unfold action; cbv zeta; cbn [res trace].
  intros [H|[]]. injection H as ->. now exists tt.
Qed.

Lemma only_on_return_bind {A B} c (m : M A) (k : A -> M B) :
  always (fun e => call_of e <> c) m ->
  (forall a, only_on_return c (k a)) ->
  only_on_return c (bind m k).
Proof.
  intros Hm Hk w v. rewrite trace_bind, res_bind. intros H.
  apply in_app_or in H as [H|H].
  - exfalso. specialize (Hm w). rewrite Forall_forall in Hm.
    now apply (Hm _ H).
  - destruct (res (m w)) as [a|x]; [|contradiction]. now apply (Hk a _ v).
Qed.

(** ** [yields] and [marked] along a sequence *)

Lemma split_before_last {X} (tb : list X) z pre x post :
  tb ++ [z] = pre ++ x :: post -> x <> z ->
  exists post', tb = pre ++ x :: post'.
Proof.
  revert pre. induction tb as [|a tb IH]; intros pre H Hx; cbn [app] in H.
  - destruct pre as [|p [|q pre]]; cbn [app] in H; try discriminate H.
    injection H as E _. now destruct Hx.
  - destruct pre as [|p pre]; cbn [app] in H; injection H as E H.
    + subst a. now exists tb.
    + subst a. destruct (IH pre H Hx) as (post' & ->). now exists post'.
Qed.

Section Measure.

Variable T : Type.
Variable mu : event -> list T.

Lemma yields_ret {A} (a : A) : yields mu [] (ret a).
Proof. intros w b _. reflexivity. Qed.

Lemma yields_action c L :
  (forall v, mu (Ev c (Returned v)) = L) -> yields mu L (action c).
Proof.
  intros H w a. unfold action; cbv zeta; cbn [res trace flat_map].
  destruct (fst (respond w c)) as [v|x]; [|discriminate].
  intros _. now rewrite H, app_nil_r.
Qed.

Lemma yields_perform c L :
  (forall v, mu (Ev c (Returned v)) = L) -> yields mu L (perform c).
Proof.
  intros H w a. unfold perform; cbv zeta; cbn [res trace flat_map].
  destruct (fst (respond w c)) as [v|x]; [|discriminate].
  intros _. now rewrite H, app_nil_r.
Qed.

Lemma yields_bind {A B} L1 L2 (m : M A) (k : A -> M B) :
  yields mu L1 m -> (forall a, yields mu L2 (k a)) ->
  yields mu (L1 ++ L2) (bind m k).
Proof.
  intros Hm Hk w b. rewrite trace_bind, res_bind, flat_map_app.
  specialize (Hm w). destruct (res (m w)) as [a|x]; [|discriminate].
  intros Hb. now rewrite (Hm a eq_refl), (Hk a _ b Hb).
Qed.

Lemma yields_when b body : yields mu [] body -> yields mu [] (when b body).
Proof. intros H. destruct b; [exact H | apply yields_ret]. Qed.

Variable mark : call.
Variable V : list T.

Lemma split_past {X} (t1 t2 pre post : list X) (x : X) :
  t1 ++ t2 = pre ++ x :: post ->
  ~ In x t1 ->
  exists pre2, pre = t1 ++ pre2 /\ t2 = pre2 ++ x :: post.
Proof.
  revert pre. induction t1 as [|a t1 IH]; intros pre H Hx; cbn [app] in H.
  - now exists pre.
  - destruct pre as [|p pre]; cbn [app] in H; inversion H; subst.
    + exfalso. apply Hx. now left.
    + destruct (IH pre H2) as (pre2 & -> & ->).
      * intros Hin. apply Hx. now right.
      * now exists pre2.
Qed.

Lemma marked_bind {A B} L0 L1 (m : M A) (k : A -> M B) :
  always (fun e => call_of e <> mark) m ->
  yields mu L1 m ->
  (forall a, marked mu mark V (L0 ++ L1) (k a)) ->
  marked mu mark V L0 (bind m k).
Proof.
  intros Hno Hm Hk w pre r post. rewrite trace_bind. intros H.
  apply split_past in H as (pre2 & -> & H).
  - specialize (Hm w). destruct (res (m w)) as [a|x].
    + rewrite flat_map_app, (Hm a eq_refl), app_assoc.
      exact (Hk a _ _ _ _ H).
    + destruct pre2; discriminate.
  - intros Hin. specialize (Hno w). rewrite Forall_forall in Hno.
    now apply (Hno _ Hin).
Qed.

Lemma marked_here {B} (k : unit -> M B) :
  (forall a, always (fun e => call_of e <> mark) (k a)) ->
  marked mu mark V V (bind (action mark) k).
Proof.
  intros Hk w pre r post. rewrite trace_bind.
  match goal with
  | |- trace (action mark w) ++ ?t = _ -> _ =>
      assert (Hall : Forall (fun e => call_of e <> mark) t)
        by (destruct (res (action mark w)); [apply Hk | constructor]);
      generalize dependent t
  end.
  intros t2 Hall H. cbn [action trace app] in H.
  destruct pre as [|p pre]; cbn [app] in H.
  - cbn [flat_map]. apply app_nil_r.
  - exfalso. inversion H as [[Hp Ht]]. subst t2.
    apply Forall_app in Hall as [_ Hall]. inversion Hall; subst. auto.
Qed.

Lemma marked_at {B} L0 (k : unit -> M B) :
  L0 = V ->
  (forall a, always (fun e => call_of e <> mark) (k a)) ->
  marked mu mark V L0 (bind (action mark) k).
Proof. intros ->. apply marked_here. Qed.

Lemma marked_main :
  (forall r, mu (Ev SyncPlaywrightEnter r) = []) ->
  script_step mark = true ->
  marked mu mark V [] main_body ->
  marked mu mark V [] main.
Proof.
  intros Hmu Hstep Hb w pre r post.
  assert (Henter : SyncPlaywrightEnter <> mark)
    by (intros E; rewrite <- E in Hstep; discriminate Hstep).
  assert (Hexit : forall r2, Ev mark r <> Ev SyncPlaywrightExit r2)
    by (intros r2 E; injection E as E _; rewrite E in Hstep; discriminate Hstep).
  unfold main. pattern (with_sync_playwright main_body w). apply with_cases.
  - intros x w'; cbn [trace failed]. intros H.
    destruct pre as [|p [|q pre]]; cbn [app] in H; try discriminate H.
    injection H as E _ _. now destruct (Henter E).
  - intros v w0 r2 w2; cbn [trace]. intros H.
    destruct pre as [|p pre]; cbn [app] in H; injection H as E Ht.
    + now destruct (Henter E).
    + subst p. cbn [flat_map app]. rewrite Hmu. cbn [app].
      destruct (split_before_last _ _ _ _ _ Ht (Hexit r2)) as (post' & Hpost).
      exact (Hb w0 pre r post' Hpost).
Qed.

End Measure.

(** ** Walking through the script once more *)

Ltac walk_upto :=
  repeat lazymatch goal with
  | |- captures_upto _ (bind _ _) => eapply captures_upto_bind; [|intro]
  | |- captures_upto _ (action (Screenshot _)) => apply captures_upto_screenshot
  | |- captures_upto _ _ =>
      apply captures_upto_quiet; walk_always ltac:(reflexivity)
  end.

Ltac walk_pauses :=
  repeat lazymatch goal with
  | |- pauses_at_most _ (bind _ _) => eapply pauses_bind; [|intro]
  | |- pauses_at_most _ (when _ _) => apply pauses_when
  | |- pauses_at_most _ (ret _) => apply pauses_ret
  | |- pauses_at_most _ (action _) => apply pauses_action
  | |- pauses_at_most _ (perform _) => apply pauses_perform
  end.

Ltac walk_yields :=
  repeat lazymatch goal with
  | |- yields _ ?L (bind _ _) =>
      tryif is_evar L
      then (eapply yields_bind; [|intro])
      else (apply (yields_bind _ _ [] []); [|intro])
  | |- yields _ _ (when _ _) => apply yields_when
  | |- yields _ _ (ret _) => apply yields_ret
  | |- yields _ _ (action _) => apply yields_action; intro; cbv; reflexivity
  | |- yields _ _ (perform _) => apply yields_perform; intro; cbv; reflexivity
  end.

Ltac walk_marked :=
  repeat lazymatch goal with
  | |- marked _ ?mk _ _ (bind (action ?mk) _) =>
      apply marked_at;
      [ vm_compute; reflexivity
      | intro; walk_always ltac:(cbn [call_of]; discriminate) ]
  | |- marked _ _ _ _ (bind _ _) =>
      eapply marked_bind;
      [ walk_always ltac:(cbn [call_of]; discriminate)
      | walk_yields
      | intro ]
  end.

Lemma main_body_captures_upto :
  captures_upto (map image_path artifact_names) main_body.
Proof.
  assert (H : exists L, captures_upto L main_body /\ L = map image_path artifact_names).
  { eexists; split; [unfold_script; walk_upto | reflexivity]. }
  destruct H as (L & H & ->). exact H.
Qed.

Lemma main_body_pauses : pauses_at_most 13000 main_body.
Proof.
  eapply pauses_weaken.
  - unfold_script; unfold tasks; cbn [for_each]. walk_pauses.
  - vm_compute. discriminate.
Qed.

Lemma main_body_success_on_return :
  only_on_return (Print success_line) main_body.
Proof.
  unfold_script.
  repeat (apply only_on_return_bind;
          [ walk_always ltac:(cbn [call_of]; discriminate) | intro ]).
  apply only_on_return_action.
Qed.

Lemma main_body_succeeds : reaches (Print success_line) main_body.
Proof.
  unfold_script.
  repeat first [ apply reaches_action | apply reaches_bind_r; intro ].
Qed.

Lemma main_body_closes_last :
  marked shot BrowserClose (map image_path artifact_names) [] main_body.
Proof. unfold_script; unfold tasks; cbn [for_each]. walk_marked. Qed.

Lemma main_body_six_lookups :
  marked add_lookup (Screenshot "docs/images/02_list_view_with_tasks.png")
    (repeat tt 6) [] main_body.
Proof. unfold_script; unfold tasks; cbn [for_each]. walk_marked. Qed.

(** ** Nothing touches the page before it is loaded *)

Section Gate.

Variable opens : event -> bool.
Variable needs : call -> bool.

Lemma gated_seen t : gated opens needs true t.
Proof. induction t as [|e t IH]; cbn [gated orb]; auto. Qed.

Lemma gated_leave seen t r :
  needs SyncPlaywrightExit = false ->
  gated opens needs seen t ->
  gated opens needs seen (t ++ [Ev SyncPlaywrightExit r]).
Proof.
  intros Hn. revert seen. induction t as [|e t IH]; intros seen; cbn [app gated].
  - intros _. split; [cbn [call_of]; rewrite Hn; discriminate | exact I].
  - intros [H1 H2]. split; [exact H1 | now apply IH].
Qed.

Lemma gated_split seen t pre c r post :
  gated opens needs seen t ->
  t = pre ++ Ev c r :: post ->
  needs c = true ->
  seen = true \/ exists e, In e pre /\ opens e = true.
Proof.
  revert seen t. induction pre as [|e pre IH]; intros seen t Ht -> Hc.
  - left. now apply Ht.
  - destruct Ht as [_ Ht].
    destruct (IH _ _ Ht eq_refl Hc) as [H|(e' & Hin & He')].
    + apply orb_true_iff in H as [H|H]; [now left | right].
      exists e. split; [now left | exact H].
    + right. exists e'. split; [now right | exact He'].
Qed.

End Gate.

Ltac gate_action :=
  on_action ltac:(cbn [gated call_of page_call]; split; [discriminate | exact I])
            ltac:(cbn [gated call_of page_call]; split; [discriminate|]).

Lemma main_navigated (w : World) :
  gated navigated page_call false (trace (main w)).
Proof.
  unfold main. pattern (with_sync_playwright main_body w). apply with_cases.
  - intros x w'. split; [discriminate | exact I].
  - intros v w0 r w2. cbn [trace gated]. split; [discriminate|].
    apply gated_leave; [reflexivity|].
    unfold_script. do 3 gate_action. apply gated_seen.
Qed.

Lemma main_loaded (w : World) :
  gated page_loaded page_call false (trace (main w)).
Proof.
  unfold main. pattern (with_sync_playwright main_body w). apply with_cases.
  - intros x w'. split; [discriminate | exact I].
  - intros v w0 r w2. cbn [trace gated]. split; [discriminate|].
    apply gated_leave; [reflexivity|].
    unfold_script. do 4 gate_action. apply gated_seen.
Qed.

(** ** Every action is checked, every interaction settles *)

Lemma first_call_action c w : first_call (trace (action c w)) = Some c.
Proof. reflexivity. Qed.

Lemma step_rule_of_first e rest c :
  first_call rest = Some c ->
  checked_by e (Some c) -> settles e (Some c) ->
  step_rule e rest.
Proof. intros E H1 H2. unfold step_rule. now rewrite E. Qed.

Lemma step_rule_leave e rest r :
  step_rule e rest -> step_rule e (rest ++ [Ev SyncPlaywrightExit r]).
Proof.
  destruct rest as [|e' rest]; [|exact (fun H => H)].
  unfold step_rule; cbn [app first_call call_of checked_by acts_on].
  intros [_ H]. split; [exact I|].
  destruct e as [[] [v|x]]; cbn [settles] in *; auto.
Qed.

Lemma step_rule_leaving t r :
  suffixes_ok step_rule t ->
  suffixes_ok step_rule (t ++ [Ev SyncPlaywrightExit r]).
Proof.
  induction t as [|e t IH]; cbn [app suffixes_ok].
  - intros _. repeat split.
  - intros [H1 H2]. split; [now apply step_rule_leave | now apply IH].
Qed.

Lemma with_continuation_for (phi : event -> list event -> Prop)
      (K : unit -> M unit) (c0 : call) (G : (unit -> M unit) -> Prop) :
  (forall w, suffixes_ok phi (trace (K tt w))) ->
  (forall w, first_call (trace (K tt w)) = Some c0) ->
  (forall Kc,
      (forall w, suffixes_ok phi (trace (Kc tt w))) ->
      (forall w, first_call (trace (Kc tt w)) = Some c0) ->
      G Kc) ->
  G K.
Proof. intros H1 H2 H. now apply H. Qed.

Ltac head_call2 := first [ head_call | norm_prog; apply first_call_action ].

Ltac sr_next := eapply step_rule_of_first; [head_call2 | exact I | exact I].

Ltac sr_entered :=
  eapply step_rule_of_first;
  [ head_call2
  | unfold checked_by; cbn [acts_on]; eexists; split;
    [ reflexivity
    | match goal with
      | |- index_used ?l < _ =>
          let i := eval vm_compute in (index_used l) in
          change (index_used l) with i
      end; lia ]
  | exact I ].

Ltac sr_step :=
  norm_prog;
  lazymatch goal with
  | H : forall w, suffixes_ok step_rule (trace (?K tt w))
    |- suffixes_ok step_rule (trace (?K tt _)) => apply H
  | |- suffixes_ok step_rule (trace (bind (action _) _ _)) =>
      on_action ltac:(cbn [suffixes_ok]; repeat split)
                ltac:(cbn [suffixes_ok]; split; [sr_next | sr_step])
  | |- suffixes_ok step_rule (trace (action ?c ?w)) =>
      pattern (action c w); apply action_cases;
      intros ? ?; cbn [trace failed suffixes_ok]; repeat split
  | |- suffixes_ok step_rule (trace (bind (perform (Count _)) _ _)) =>
      on_perform ltac:(cbn [suffixes_ok]; repeat split)
                 ltac:(cbn [suffixes_ok]; sr_block)
  end
with sr_block :=
  lazymatch goal with
  | |- context [bind (when _ _) ?K _] =>
      pattern K; eapply (with_continuation_for step_rule);
      [ intro; sr_step
      | intro; head_call2
      | let Kc := fresh "Kc" in
        let HK := fresh "HK" in
        let HN := fresh "HN" in
        intros Kc HK HN; cbv beta;
        lazymatch goal with
        | |- context [Nat.ltb ?b ?n] =>
            destruct (Nat.ltb_spec b n); cbn [when]; split;
            [ sr_entered | sr_step | sr_next | sr_step ]
        end ]
  end.

Lemma main_body_step_rule (w : World) :
  suffixes_ok step_rule (trace (main_body w)).
Proof. unfold_script; unfold tasks. sr_step. Qed.

Lemma main_step_rule (w : World) :
  suffixes_ok step_rule (trace (main w)).
Proof.
  unfold main. pattern (with_sync_playwright main_body w). apply with_cases.
  - intros x w'. repeat split.
  - intros v w0 r w2. cbn [trace suffixes_ok]. split.
    + unfold_script.
      match goal with |- context [bind (action ?c) ?k w0] =>
        rewrite (trace_bind (action c) k w0)
      end.
      repeat split.
    + apply step_rule_leaving, main_body_step_rule.
Qed.

Lemma main_starts (w : World) :
  exists r t, trace (main w) = Ev SyncPlaywrightEnter r :: t.
Proof.
  unfold main. pattern (with_sync_playwright main_body w). apply with_cases.
  - intros x w'. now exists (Raised x), [].
  - intros v w0 r w2. now eexists _, _.
Qed.

(** ** Further theorems about the script *)

(** X2: a block is entered exactly when the count exceeds its bound (0,
    or the index later used with [nth]): then the call after the count is
    the block's first action; otherwise it is the call that starts the
    following statement. *)
Theorem block_entered_iff_over_bound (w : World) pre l n post :
  trace (main w) = pre ++ Ev (Count l) (Returned n) :: post ->
  exists g e post',
    lookup_guard l = Some g /\
    post = e :: post' /\
    if bound g <? n
    then call_of e = first_action g
    else In (call_of e) (next_step g).
Proof.
  intros H.
  pose proof (suffixes_split _ _ _ _ _ (main_guard_rule w) H) as Hg.
  cbn [guard_rule] in Hg. destruct (lookup_guard l) as [g|]; [|contradiction].
  destruct Hg as [H1 H2]. exists g.
  destruct (Nat.ltb_spec (bound g) n) as [Hn|Hn].
  - specialize (H2 Hn). destruct post as [|e post']; [contradiction|].
    exists e, post'. repeat split. now destruct H2 as [<-|[]].
  - specialize (H1 Hn). destruct post as [|e post']; [contradiction|].
    exists e, post'. now repeat split.
Qed.

(** X3: every line the script prints is either the final success line or
    the announcement of one of the nine screenshots, and an announcement
    that has been printed is followed at once by the capture of the file
    it names. *)
Theorem announcement_then_capture (w : World) pre line v post :
  trace (main w) = pre ++ Ev (Print line) (Returned v) :: post ->
  line = success_line \/
  exists name r' post',
    In name artifact_names /\
    line = announce name /\
    post = Ev (Screenshot (image_path name)) r' :: post'.
Proof.
  intros H.
  pose proof (suffixes_split _ _ _ _ _ (main_guard_rule w) H) as Hg.
  pose proof (main_literal w) as Hl. rewrite H in Hl.
  apply Forall_app in Hl as [_ Hl]. inversion Hl as [|? ? Hline _]; subst.
  cbn [call_of literal_call existsb] in Hline.
  apply orb_true_iff in Hline as [Hline|Hline].
  - left. now apply String.eqb_eq in Hline.
  - right. cbn [guard_rule] in Hg.
    destruct (announced line) as [name|] eqn:E.
    + unfold announced in E. apply find_some in E as [Hin Hname].
      apply String.eqb_eq in Hname.
      destruct post as [|[c r'] post']; [contradiction|].
      destruct Hg as [Hc|[]]. cbn [call_of] in Hc. subst c.
      now exists name, r', post'.
    + exfalso. apply existsb_exists in Hline as (s & Hs & Hline).
      apply in_map_iff in Hs as (name & <- & Hin).
      apply String.eqb_eq in Hline.
      unfold announced in E.
      pose proof (find_none _ _ E name Hin) as Hn. cbn beta in Hn.
      rewrite Hline, String.eqb_refl in Hn. discriminate.
Qed.

(** X5: [main] swallows no exception and raises none of its own: it
    returns exactly when every call of the run returned, entering and
    leaving the [with] block included. *)
Theorem main_returns_iff_all_returned (w : World) :
  res (main w) = Ok tt <->
  Forall (fun e => returned e = true) (trace (main w)).
Proof.
  pose proof (main_clean w) as H.
  destruct (res (main w)) as [[]|x]; split; intros H';
    try reflexivity; try assumption.
  - discriminate.
  - contradiction.
Qed.

(** X4: whatever happens, the files a run has written are the first few
    of the nine screenshots, in their order: a run that stops early
    leaves the earlier files and none of the later ones, and no file is
    written twice. *)
Theorem screenshots_are_a_prefix (w : World) :
  (exists rest,
      screenshots (trace (main w)) ++ rest = map image_path artifact_names) /\
  NoDup (screenshots (trace (main w))).
Proof.
  assert (H : exists rest,
             screenshots (trace (main w)) ++ rest = map image_path artifact_names).
  { unfold main. pattern (with_sync_playwright main_body w). apply with_cases.
    - intros x w'. now exists (map image_path artifact_names).
    - intros v w0 r w2. cbn [trace].
      change (screenshots (Ev SyncPlaywrightEnter (Returned v) :: ?t))
        with (screenshots t).
      rewrite screenshots_app.
      destruct (main_body_captures_upto w0) as [_ (rest & E)].
      exists rest. cbn [screenshots flat_map]. now rewrite app_nil_r. }
  split; [exact H|]. destruct H as (rest & E).
  apply (NoDup_app_remove_r _ rest). rewrite E.
  repeat (constructor; [cbn; intuition discriminate|]). constructor.
Qed.

(** X6: the success line is printed, the print returning, exactly in the
    runs in which every call before leaving the [with] block returned. *)
Theorem success_line_iff_body_returned (w : World) :
  (exists v, In (Ev (Print success_line) (Returned v)) (trace (main w))) <->
  exists t r,
    trace (main w) = t ++ [Ev SyncPlaywrightExit r] /\
    Forall (fun e => returned e = true) t.
Proof.
  unfold main. pattern (with_sync_playwright main_body w). apply with_cases.
  - intros x w'. cbn [trace failed]. split.
    + intros (v & [H|[]]). discriminate.
    + intros (t & r & H & Ht). destruct t as [|e [|e' t]]; discriminate H.
  - intros v w0 r w2. cbn [trace].
    pose proof (main_body_clean w0) as Hc.
    split.
    + intros (v' & H). destruct H as [H|H]; [discriminate|].
      apply in_app_or in H as [H|[H|[]]]; [|discriminate].
      destruct (main_body_success_on_return w0 v' H) as (a & Ha).
      rewrite Ha in Hc. cbn [stops_at] in Hc.
      exists (Ev SyncPlaywrightEnter (Returned v) :: trace (main_body w0)), r.
      split; [reflexivity|]. constructor; [reflexivity | exact Hc].
    + intros (t & r' & H & Ht).
      change (Ev SyncPlaywrightEnter (Returned v)
              :: trace (main_body w0) ++ [Ev SyncPlaywrightExit r])
        with ((Ev SyncPlaywrightEnter (Returned v) :: trace (main_body w0))
              ++ [Ev SyncPlaywrightExit r]) in H.
      apply app_inj_tail in H as [<- _].
      inversion Ht as [|? ? _ Hb]; subst.
      destruct (res (main_body w0)) as [[]|y] eqn:E.
      * destruct (main_body_succeeds w0 tt E) as (v' & Hin).
        exists v'. right. apply in_or_app. now left.
      * exfalso. cbn [stops_at] in Hc. destruct Hc as (pre & c & Ht' & _).
        rewrite Ht' in Hb. apply Forall_app in Hb as [_ Hb].
        inversion Hb; subst. discriminate.
Qed.

(** X7: the browser is closed only after all nine screenshots have been
    written. *)
Theorem closed_after_nine_captures (w : World) pre r post :
  trace (main w) = pre ++ Ev BrowserClose r :: post ->
  screenshots pre = map image_path artifact_names.
Proof.
  intros H.
  exact (marked_main _ shot BrowserClose _ (fun _ => eq_refl) eq_refl
           main_body_closes_last w pre r post H).
Qed.

(** X8: a missed add attempt does not end the loop: in every run that
    reaches the second capture the add-task button has been looked up
    exactly six times, once before the loop and once for each of the five
    tasks, whether or not the earlier look-ups found it. *)
Theorem six_add_attempts (w : World) pre r post :
  trace (main w) = pre ++ Ev second_capture r :: post ->
  add_attempts pre = 6.
Proof.
  intros H.
  pose proof (marked_main unit add_lookup
                (Screenshot "docs/images/02_list_view_with_tasks.png")
                (repeat tt 6) (fun _ => eq_refl) eq_refl
                main_body_six_lookups w pre r post H) as E.
  cbn [app] in E. unfold add_attempts. now rewrite E.
Qed.

(** X11: the pauses a run asks for, the second of [time.sleep] and the
    timeouts of [page.wait_for_timeout], add up to at most 13 seconds. *)
Theorem pauses_at_most_13_seconds (w : World) :
  (total_pause (trace (main w)) <= 13000)%N.
Proof.
  unfold main. pattern (with_sync_playwright main_body w). apply with_cases.
  - intros x w'. vm_compute. discriminate.
  - intros v w0 r w2. cbn [trace total_pause fold_right call_of pause_ms].
    fold (total_pause (trace (main_body w0) ++ [Ev SyncPlaywrightExit r])).
    rewrite total_pause_app. pose proof (main_body_pauses w0) as H.
    cbn [total_pause fold_right call_of pause_ms]. lia.
Qed.

(** X1: the script never clicks or fills an element it has not just
    looked for.  The call right before a click or a fill is the count of
    the same locator, and that count returned more than the position the
    action needs: at least one match for a plain locator and for
    [first], more than [i] matches for [nth(i)]. *)
Theorem actions_are_checked (w : World) pre c r post l :
  trace (main w) = pre ++ Ev c r :: post ->
  acts_on c = Some l ->
  exists pre' n,
    pre = pre' ++ [Ev (Count (base l)) (Returned n)] /\ index_used l < n.
Proof.
  intros H Hl.
  destruct pre as [|p pre0].
  - destruct (main_starts w) as (r0 & t & E). rewrite E in H.
    injection H as <- _ _. discriminate Hl.
  - destruct (exists_last (l := p :: pre0)) as (pre' & e & E); [discriminate|].
    rewrite E in *. rewrite <- app_assoc in H. cbn [app] in H.
    pose proof (suffixes_split _ _ _ _ _ (main_step_rule w) H) as [Hc _].
    cbn [first_call call_of checked_by] in Hc. rewrite Hl in Hc.
    destruct Hc as (n & -> & Hn). now exists pre', n.
Qed.

(** X9: nothing looks at or touches the page before the navigation and
    the wait for the network to be idle have both returned: no count,
    click, key, text, fill, timeout or screenshot comes earlier. *)
Theorem page_is_loaded_first (w : World) pre c r post :
  trace (main w) = pre ++ Ev c r :: post ->
  page_call c = true ->
  (exists v, In (Ev (Goto "http://localhost:1420") (Returned v)) pre) /\
  (exists v, In (Ev (WaitForLoadState "networkidle") (Returned v)) pre).
Proof.
  intros H Hc. split.
  - destruct (gated_split _ _ _ _ _ _ _ _ (main_navigated w) H Hc)
      as [E|(e & Hin & He)]; [discriminate|].
    destruct e as [[] [v|]]; try discriminate He.
    apply String.eqb_eq in He. subst. now exists v.
  - destruct (gated_split _ _ _ _ _ _ _ _ (main_loaded w) H Hc)
      as [E|(e & Hin & He)]; [discriminate|].
    destruct e as [[] [v|]]; try discriminate He.
    apply String.eqb_eq in He. subst. now exists v.
Qed.

(** X10: the script lets the page settle.  After every click, fill or key
    press that returned the next call is a [wait_for_timeout], and after
    every text typed the next call presses a key; so no screenshot and no
    count directly follows an interaction. *)
Theorem interactions_settle (w : World) pre c v post :
  trace (main w) = pre ++ Ev c (Returned v) :: post ->
  interaction c = true ->
  exists c' r' post',
    post = Ev c' r' :: post' /\
    match c with
    | KeyboardType _ => exists key, c' = KeyboardPress key
    | _ => exists ms, c' = WaitForTimeout ms
    end.
Proof.
  intros H Hc.
  pose proof (suffixes_split _ _ _ _ _ (main_step_rule w) H) as [_ Hs].
  destruct post as [|[c' r'] post']; cbn [first_call call_of] in Hs.
  - destruct c; try discriminate Hc; contradiction.
  - exists c', r', post'. split; [reflexivity|].
    destruct c; try discriminate Hc; cbn [settles] in Hs;
      destruct c'; try contradiction; eauto.
Qed.

End Walkthrough.

Arguments Outcome {World A}.
Arguments res {World A}.
Arguments after {World A}.
Arguments trace {World A}.
Arguments ret {World A}.
Arguments bind {World A B}.
Arguments when {World}.
Arguments for_each {World X}.
Arguments exit_status {World}.

(** Running [m'] on the replies recorded by [m] makes the calls of [m]
    again, ends as [m] ended, and uses up exactly those replies. *)
Definition replays {World A} (m : M World A) (m' : M (list reply) A) : Prop :=
  forall w rest,
    res (m' (map reply_of (trace (m w)) ++ rest)) = res (m w) /\
    trace (m' (map reply_of (trace (m w)) ++ rest)) = trace (m w) /\
    after (m' (map reply_of (trace (m w)) ++ rest)) = rest.

(** ** The script started as a process *)

Section Process.

(** The interpreter and the browser that answer the calls of the script
    do so as the process they run in lets them. *)
Variable World : Type.
Variable host : process -> World -> call -> reply * World.

(** [if __name__ == "__main__": main()].  The script takes nothing from
    the process; its calls are answered by the environment of that
    process. *)
Definition run_script (p : process) : M World unit := main World (host p).

(** C2: when a step of the script (in particular a required one: the
    navigation, a wait, a capture) raises, the run ends there.  Every
    earlier call had returned, nothing follows the failing call but
    leaving the [with] block, so no later step runs and the call is not
    tried again; [main] ends with an exception and the process exits
    with a non-zero status. *)
Theorem failing_step_ends_run (p : process) (w : World) pre c x post :
  trace (run_script p w) = pre ++ Ev c (Raised x) :: post ->
  script_step c = true ->
  Forall (fun e => returned e = true) pre /\
  (exists r, post = [Ev SyncPlaywrightExit r]) /\
  (exists x', res (run_script p w) = Err x') /\
  exit_status (run_script p w) = 1.
Proof.
  unfold run_script, exit_status. intros H Hc.
  destruct (main_failure World (host p) w pre c x post H Hc)
    as (Hpre & r & -> & Hres).
  split; [exact Hpre|]. split; [now exists r|].
  rewrite Hres. destruct r as [v|x']; split; eauto.
Qed.

End Process.

Section Replay.

Variable World : Type.
Variable respond : World -> call -> reply * World.

Lemma after_bind {W A B} (m : M W A) (k : A -> M W B) w :
  after (bind m k w) =
  match res (m w) with
  | Ok a => after (k a (after (m w)))
  | Err _ => after (m w)
  end.
Proof. unfold bind; cbv zeta. now destruct (res (m w)). Qed.

Lemma replays_ret {A} (a : A) : replays (World := World) (ret a) (ret a).
Proof. intros w rest. now repeat split. Qed.

Lemma replays_action c :
  replays (action World respond c) (action (list reply) replay c).
Proof.
  intros w rest. unfold action; cbv zeta; cbn [res trace after map app reply_of].
  cbn [replay fst snd]. now repeat split.
Qed.

Lemma replays_perform c :
  replays (perform World respond c) (perform (list reply) replay c).
Proof.
  intros w rest. unfold perform; cbv zeta; cbn [res trace after map app reply_of].
  cbn [replay fst snd]. now repeat split.
Qed.

Lemma replays_bind {A B} (m : M World A) m' (k : A -> M World B) k' :
  replays m m' -> (forall a, replays (k a) (k' a)) ->
  replays (bind m k) (bind m' k').
Proof.
  intros Hm Hk w rest.
  rewrite (trace_bind World m k w), (res_bind World m k w).
  rewrite !res_bind, !trace_bind, !after_bind.
  destruct (res (m w)) as [a|x] eqn:E.
  - rewrite map_app, <- app_assoc.
    destruct (Hm w (map reply_of (trace (k a (after (m w)))) ++ rest))
      as (H1 & H2 & H3).
    rewrite E in H1. rewrite H1, H2, H3.
    destruct (Hk a (after (m w)) rest) as (K1 & K2 & K3).
    now rewrite K1, K2, K3.
  - rewrite app_nil_r. destruct (Hm w rest) as (H1 & H2 & H3).
    rewrite E in H1. rewrite H1, H2, H3, app_nil_r. now repeat split.
Qed.

Lemma replays_when b (body : M World unit) body' :
  replays body body' -> replays (when b body) (when b body').
Proof. intros H. destruct b; [exact H | apply replays_ret]. Qed.

Lemma replays_for_each {X} (xs : list X) (f : X -> M World unit) f' :
  (forall x, replays (f x) (f' x)) ->
  replays (for_each xs f) (for_each xs f').
Proof.
  intros H. induction xs as [|x xs IH]; cbn [for_each].
  - apply replays_ret.
  - apply replays_bind; [apply H | intros _; exact IH].
Qed.

Lemma replays_with {A} (body : M World A) body' :
  replays body body' ->
  replays (with_sync_playwright World respond body)
          (with_sync_playwright (list reply) replay body').
Proof.
  intros Hb w rest.
  unfold with_sync_playwright, action; cbv zeta; cbn [res after trace].
  destruct (respond w SyncPlaywrightEnter) as [[v|x] w0]; cbn [fst snd];
    cbn [res after trace app map reply_of replay fst snd];
    [|now repeat split].
  rewrite map_app, <- app_assoc.
  destruct (Hb w0 (map reply_of
                     [Ev SyncPlaywrightExit
                        (fst (respond (after (body w0)) SyncPlaywrightExit))]
                   ++ rest)) as (H1 & H2 & H3).
  rewrite H1, H2, H3. cbn [map reply_of app replay fst snd].
  now repeat split.
Qed.

Lemma main_replays :
  replays (main World respond) (main (list reply) replay).
Proof.
  unfold main. apply replays_with.
  unfold main_body, launch, new_page, goto, wait_for_load_state, sleep, print,
    screenshot, count, click, wait_for_timeout, keyboard_type, keyboard_press,
    fill, browser_close.
  repeat first
    [ apply replays_bind; [|intro]
    | apply replays_when
    | apply replays_for_each; intro
    | apply replays_ret
    | apply replays_action
    | apply replays_perform ].
Qed.

(** The trace of a run is the trace of the script run on its replies. *)
Lemma main_trace_replayed (w : World) :
  trace (main World respond w) =
    trace (main (list reply) replay (map reply_of (trace (main World respond w)))) /\
  res (main World respond w) =
    res (main (list reply) replay (map reply_of (trace (main World respond w)))).
Proof.
  destruct (main_replays w []) as (H1 & H2 & _).
  rewrite app_nil_r in H1, H2. now split.
Qed.

End Replay.

(** ** Determined by the replies *)

(** C9, as amended: the script reads nothing of the process.  The calls
    of a run are fixed by the script and by the replies it gets: two
    runs, in whatever processes and against whatever environments, that
    get the same replies make the same calls, end the same way and write
    the same files; and every call carries the literals of the script,
    its URL, selectors, texts, durations and paths.  Arguments,
    environment variables and files matter only through the replies. *)
Theorem run_determined_by_replies (W1 W2 : Type)
        (host1 : process -> W1 -> call -> reply * W1)
        (host2 : process -> W2 -> call -> reply * W2)
        (p1 p2 : process) (w1 : W1) (w2 : W2) :
  (map reply_of (trace (run_script W1 host1 p1 w1)) =
   map reply_of (trace (run_script W2 host2 p2 w2)) ->
   trace (run_script W1 host1 p1 w1) = trace (run_script W2 host2 p2 w2) /\
   res (run_script W1 host1 p1 w1) = res (run_script W2 host2 p2 w2) /\
   screenshots (trace (run_script W1 host1 p1 w1)) =
     screenshots (trace (run_script W2 host2 p2 w2))) /\
  Forall (fun e => literal_call (call_of e) = true)
         (trace (run_script W1 host1 p1 w1)).
Proof.
  unfold run_script. split.
  - intros H.
    destruct (main_trace_replayed W1 (host1 p1) w1) as [T1 R1].
    destruct (main_trace_replayed W2 (host2 p2) w2) as [T2 R2].
    assert (E : trace (main W1 (host1 p1) w1) = trace (main W2 (host2 p2) w2))
      by (rewrite T1, T2, H; reflexivity).
    split; [exact E|]. split; [|now rewrite E].
    rewrite R1, R2, H. reflexivity.
  - apply main_literal.
Qed.

(** ** The script run against the browsers above *)

(** C1 at work: on a page where nothing matches, the first add-task
    block is passed over. *)
Lemma absent_target_skips_block_witness :
  trace (main unit (uniform_page 0) tt) =
    firstn 8 (trace (main unit (uniform_page 0) tt))
    ++ Ev (Count add_button) (Returned 0)
    :: skipn 9 (trace (main unit (uniform_page 0) tt)) /\
  exists g e post',
    lookup_guard add_button = Some g /\
    skipn 9 (trace (main unit (uniform_page 0) tt)) = e :: post' /\
    In (call_of e) (next_step g) /\
    interaction (call_of e) = false.
Proof.
  split; [vm_compute; reflexivity|].
  apply (absent_target_skips_block unit (uniform_page 0) tt
           (firstn 8 (trace (main unit (uniform_page 0) tt)))).
  vm_compute; reflexivity.
Defined.

(** C2 at work: the application is down, navigation raises, the run
    ends. *)
Lemma failing_step_ends_run_witness :
  trace (run_script unit (fun _ => offline) (Process [] [] []) tt) =
    [Ev SyncPlaywrightEnter (Returned 0); Ev (Launch true) (Returned 0);
     Ev (NewPage 1280 800) (Returned 0)]
    ++ Ev (Goto "http://localhost:1420") (Raised connection_refused)
    :: [Ev SyncPlaywrightExit (Returned 0)] /\
  script_step (Goto "http://localhost:1420") = true /\
  Forall (fun e => returned e = true)
    [Ev SyncPlaywrightEnter (Returned 0); Ev (Launch true) (Returned 0);
     Ev (NewPage 1280 800) (Returned 0)] /\
  (exists r, [Ev SyncPlaywrightExit (Returned 0)] = [Ev SyncPlaywrightExit r]) /\
  (exists x', res (run_script unit (fun _ => offline) (Process [] [] []) tt) = Err x') /\
  exit_status (run_script unit (fun _ => offline) (Process [] [] []) tt) = 1.
Proof.
  split; [vm_compute; reflexivity|]. split; [reflexivity|].
  apply (failing_step_ends_run unit (fun _ => offline) (Process [] [] []) tt
           [Ev SyncPlaywrightEnter (Returned 0); Ev (Launch true) (Returned 0);
            Ev (NewPage 1280 800) (Returned 0)]
           (Goto "http://localhost:1420") connection_refused
           [Ev SyncPlaywrightExit (Returned 0)]);
    [vm_compute; reflexivity | reflexivity].
Defined.

(** C3 as stated fails: with the application down the navigation raises
    Playwright's error and [main] fails with that error, which is no
    StepExecutionError. *)
Lemma offline_error_is_not_wrapped :
  In (Ev (Goto "http://localhost:1420") (Raised connection_refused))
     (trace (main unit offline tt)) /\
  ~ (exists x, res (main unit offline tt) = Err x /\ step_execution_error x).
Proof.
  split.
  - vm_compute. tauto.
  - intros (x & Hx & Hc). vm_compute in Hx. injection Hx as <-.
    vm_compute in Hc. discriminate.
Qed.

(** C3 as amended, at work. *)
Lemma failing_step_raises_its_cause_witness :
  trace (main unit offline tt) =
    [Ev SyncPlaywrightEnter (Returned 0); Ev (Launch true) (Returned 0);
     Ev (NewPage 1280 800) (Returned 0)]
    ++ Ev (Goto "http://localhost:1420") (Raised connection_refused)
    :: [Ev SyncPlaywrightExit (Returned 0)] /\
  script_step (Goto "http://localhost:1420") = true /\
  Forall (fun e => returned e = true) [Ev SyncPlaywrightExit (Returned 0)] /\
  res (main unit offline tt) = Err connection_refused.
Proof.
  assert (Hpost : Forall (fun e => returned e = true)
                    [Ev SyncPlaywrightExit (Returned 0)])
    by (repeat constructor).
  split; [vm_compute; reflexivity|]. split; [reflexivity|].
  split; [exact Hpost|].
  apply (failing_step_raises_its_cause unit offline tt
           [Ev SyncPlaywrightEnter (Returned 0); Ev (Launch true) (Returned 0);
            Ev (NewPage 1280 800) (Returned 0)]
           (Goto "http://localhost:1420") connection_refused
           [Ev SyncPlaywrightExit (Returned 0)]);
    [vm_compute; reflexivity | reflexivity | exact Hpost].
Defined.

(** C4 at work: every locator matches once. *)
Lemma six_adds_before_second_capture_witness :
  trace (main unit (uniform_page 1) tt) =
    firstn 45 (trace (main unit (uniform_page 1) tt))
    ++ Ev (Screenshot "docs/images/02_list_view_with_tasks.png") (Returned 0)
    :: skipn 46 (trace (main unit (uniform_page 1) tt)) /\
  (forall n,
      In (Ev (Count add_button) (Returned n))
         (firstn 45 (trace (main unit (uniform_page 1) tt))) -> 0 < n) /\
  interactions (firstn 45 (trace (main unit (uniform_page 1) tt))) = six_add_tasks /\
  length (filter (fun c => match c with Click _ => true | _ => false end)
            (interactions (firstn 45 (trace (main unit (uniform_page 1) tt))))) = 6.
Proof.
  assert (Hpos : forall n,
             In (Ev (Count add_button) (Returned n))
                (firstn 45 (trace (main unit (uniform_page 1) tt))) -> 0 < n).
  { intros [|n] H; [exfalso | apply Nat.lt_0_succ].
    assert (F : forallb (fun e => negb (add_attempt_missed e))
                  (firstn 45 (trace (main unit (uniform_page 1) tt))) = true)
      by (vm_compute; reflexivity).
    rewrite forallb_forall in F. specialize (F _ H).
    vm_compute in F. discriminate. }
  split; [vm_compute; reflexivity|]. split; [exact Hpos|].
  apply (six_adds_before_second_capture unit (uniform_page 1) tt
           (firstn 45 (trace (main unit (uniform_page 1) tt))) (Returned 0)
           (skipn 46 (trace (main unit (uniform_page 1) tt))));
    [vm_compute; reflexivity | exact Hpos].
Defined.

(** C5 at work: nothing matches, the hierarchy capture is taken. *)
Lemma missing_subtask_button_still_captures_witness :
  trace (main unit (uniform_page 0) tt) =
    firstn 16 (trace (main unit (uniform_page 0) tt))
    ++ Ev (Count subtask_buttons) (Returned 0)
    :: skipn 17 (trace (main unit (uniform_page 0) tt)) /\
  exists r0 post1,
    skipn 17 (trace (main unit (uniform_page 0) tt)) =
      Ev (Print "Taking screenshot: 03_list_view_hierarchy.png") r0 :: post1 /\
    forall v, r0 = Returned v ->
      exists r post',
        post1 = Ev (Screenshot "docs/images/03_list_view_hierarchy.png") r :: post'.
Proof.
  split; [vm_compute; reflexivity|].
  apply (missing_subtask_button_still_captures unit (uniform_page 0) tt
           (firstn 16 (trace (main unit (uniform_page 0) tt)))).
  vm_compute; reflexivity.
Defined.

(** C6 at work: the first click of a run in which every locator matches. *)
Lemma first_capture_before_interaction_witness :
  trace (main unit (uniform_page 1) tt) =
    firstn 9 (trace (main unit (uniform_page 1) tt))
    ++ Ev (Click add_button) (Returned 0)
    :: skipn 10 (trace (main unit (uniform_page 1) tt)) /\
  interaction (Click add_button) = true /\
  exists v,
    In (Ev (Screenshot "docs/images/01_empty_list_view.png") (Returned v))
       (firstn 9 (trace (main unit (uniform_page 1) tt))).
Proof.
  split; [vm_compute; reflexivity|]. split; [reflexivity|].
  apply (first_capture_before_interaction unit (uniform_page 1) tt
           (firstn 9 (trace (main unit (uniform_page 1) tt)))
           (Click add_button) (Returned 0)
           (skipn 10 (trace (main unit (uniform_page 1) tt))));
    [vm_compute; reflexivity | reflexivity].
Defined.

(** C7 at work: a run that returns. *)
Lemma complete_run_takes_nine_witness :
  res (main unit (uniform_page 1) tt) = Ok tt /\
  screenshots (trace (main unit (uniform_page 1) tt)) =
    map image_path artifact_names /\
  length (screenshots (trace (main unit (uniform_page 1) tt))) = 9.
Proof.
  split; [vm_compute; reflexivity|].
  apply (complete_run_takes_nine unit (uniform_page 1) tt).
  vm_compute; reflexivity.
Defined.

(** C10 at work: every locator matches once, so does the subtask one. *)
Lemma one_subtask_button_is_not_enough_witness :
  trace (main unit (uniform_page 1) tt) =
    firstn 46 (trace (main unit (uniform_page 1) tt))
    ++ Ev (Count subtask_buttons) (Returned 1)
    :: skipn 47 (trace (main unit (uniform_page 1) tt)) /\
  (1 = 1 ->
   exists r0 post1,
     skipn 47 (trace (main unit (uniform_page 1) tt)) =
       Ev (Print "Taking screenshot: 03_list_view_hierarchy.png") r0 :: post1 /\
     forall v, r0 = Returned v ->
       exists r post',
         post1 = Ev (Screenshot "docs/images/03_list_view_hierarchy.png") r :: post') /\
  (first_call (skipn 47 (trace (main unit (uniform_page 1) tt))) =
     Some (Click (Nth subtask_buttons 1)) <-> 1 < 1).
Proof.
  split; [vm_compute; reflexivity|].
  apply (one_subtask_button_is_not_enough unit (uniform_page 1) tt
           (firstn 46 (trace (main unit (uniform_page 1) tt)))).
  vm_compute; reflexivity.
Defined.

(** C9 as stated fails: with standard output on a device that accepts
    nothing, the run started with PYTHONUNBUFFERED set stops at its first
    [print], after 8 calls and without a file, while the run started
    without it makes all 45 calls and writes the nine files. *)
Lemma unbuffered_output_changes_the_run :
  trace (run_script unit unwritable_stdout (Process [] [] []) tt) <>
    trace (run_script unit unwritable_stdout
             (Process [] [("PYTHONUNBUFFERED", "1")] []) tt) /\
  length (trace (run_script unit unwritable_stdout (Process [] [] []) tt)) = 45 /\
  length (trace (run_script unit unwritable_stdout
                   (Process [] [("PYTHONUNBUFFERED", "1")] []) tt)) = 8 /\
  screenshots (trace (run_script unit unwritable_stdout (Process [] [] []) tt)) =
    map image_path artifact_names /\
  screenshots (trace (run_script unit unwritable_stdout
                        (Process [] [("PYTHONUNBUFFERED", "1")] []) tt)) = [].
Proof.
  split.
  - intros H. apply (f_equal (@length event)) in H. vm_compute in H. discriminate.
  - vm_compute. repeat split.
Qed.

(** C9 as amended, at work: two processes with different arguments,
    environment and files, the same replies. *)
Lemma run_determined_by_replies_witness :
  map reply_of
    (trace (run_script unit unwritable_stdout
              (Process ["--headed"] [("HOME", "/root")] []) tt)) =
  map reply_of
    (trace (run_script unit unwritable_stdout
              (Process [] [] [("screenshots.toml", "dir = 'elsewhere'")]) tt)) /\
  trace (run_script unit unwritable_stdout
           (Process ["--headed"] [("HOME", "/root")] []) tt) =
  trace (run_script unit unwritable_stdout
           (Process [] [] [("screenshots.toml", "dir = 'elsewhere'")]) tt).
Proof.
  assert (H : map reply_of
                (trace (run_script unit unwritable_stdout
                          (Process ["--headed"] [("HOME", "/root")] []) tt)) =
              map reply_of
                (trace (run_script unit unwritable_stdout
                          (Process [] [] [("screenshots.toml", "dir = 'elsewhere'")]) tt)))
    by (vm_compute; reflexivity).
  split; [exact H|].
  exact (proj1 (proj1 (run_determined_by_replies unit unit
                         unwritable_stdout unwritable_stdout
                         (Process ["--headed"] [("HOME", "/root")] [])
                         (Process [] [] [("screenshots.toml", "dir = 'elsewhere'")])
                         tt tt) H)).
Defined.

(** ** The further theorems at work *)

(** X1 at work: six subtask buttons, the second one is clicked. *)
Lemma actions_are_checked_witness :
  trace (main unit (uniform_page 6) tt) =
    firstn 47 (trace (main unit (uniform_page 6) tt))
    ++ Ev (Click (Nth subtask_buttons 1)) (Returned 0)
    :: skipn 48 (trace (main unit (uniform_page 6) tt)) /\
  acts_on (Click (Nth subtask_buttons 1)) = Some (Nth subtask_buttons 1) /\
  exists pre' n,
    firstn 47 (trace (main unit (uniform_page 6) tt)) =
      pre' ++ [Ev (Count (base (Nth subtask_buttons 1))) (Returned n)] /\
    index_used (Nth subtask_buttons 1) < n.
Proof.
  split; [vm_compute; reflexivity|]. split; [reflexivity|].
  apply (actions_are_checked unit (uniform_page 6) tt
           (firstn 47 (trace (main unit (uniform_page 6) tt)))
           (Click (Nth subtask_buttons 1)) (Returned 0)
           (skipn 48 (trace (main unit (uniform_page 6) tt))));
    [vm_compute; reflexivity | reflexivity].
Defined.

(** X2 at work: six subtask buttons, the block is entered. *)
Lemma block_entered_iff_over_bound_witness :
  trace (main unit (uniform_page 6) tt) =
    firstn 46 (trace (main unit (uniform_page 6) tt))
    ++ Ev (Count subtask_buttons) (Returned 6)
    :: skipn 47 (trace (main unit (uniform_page 6) tt)) /\
  exists g e post',
    lookup_guard subtask_buttons = Some g /\
    skipn 47 (trace (main unit (uniform_page 6) tt)) = e :: post' /\
    if bound g <? 6
    then call_of e = first_action g
    else In (call_of e) (next_step g).
Proof.
  split; [vm_compute; reflexivity|].
  apply (block_entered_iff_over_bound unit (uniform_page 6) tt
           (firstn 46 (trace (main unit (uniform_page 6) tt)))).
  vm_compute; reflexivity.
Defined.

(** X3 at work: the first announcement. *)
Lemma announcement_then_capture_witness :
  trace (main unit (uniform_page 1) tt) =
    firstn 6 (trace (main unit (uniform_page 1) tt))
    ++ Ev (Print "Taking screenshot: 01_empty_list_view.png") (Returned 0)
    :: skipn 7 (trace (main unit (uniform_page 1) tt)) /\
  ("Taking screenshot: 01_empty_list_view.png"%string = success_line \/
   exists name r' post',
     In name artifact_names /\
     "Taking screenshot: 01_empty_list_view.png"%string = announce name /\
     skipn 7 (trace (main unit (uniform_page 1) tt)) =
       Ev (Screenshot (image_path name)) r' :: post').
Proof.
  split; [vm_compute; reflexivity|].
  apply (announcement_then_capture unit (uniform_page 1) tt
           (firstn 6 (trace (main unit (uniform_page 1) tt)))
           "Taking screenshot: 01_empty_list_view.png" 0).
  vm_compute; reflexivity.
Defined.

(** X7 at work: a run on a page where nothing matches. *)
Lemma closed_after_nine_captures_witness :
  trace (main unit (uniform_page 0) tt) =
    firstn 42 (trace (main unit (uniform_page 0) tt))
    ++ Ev BrowserClose (Returned 0)
    :: skipn 43 (trace (main unit (uniform_page 0) tt)) /\
  screenshots (firstn 42 (trace (main unit (uniform_page 0) tt))) =
    map image_path artifact_names.
Proof.
  split; [vm_compute; reflexivity|].
  apply (closed_after_nine_captures unit (uniform_page 0) tt
           (firstn 42 (trace (main unit (uniform_page 0) tt))) (Returned 0)
           (skipn 43 (trace (main unit (uniform_page 0) tt)))).
  vm_compute; reflexivity.
Defined.

(** X8 at work: the add-task button is never found, and is looked for
    six times. *)
Lemma six_add_attempts_witness :
  trace (main unit (uniform_page 0) tt) =
    firstn 15 (trace (main unit (uniform_page 0) tt))
    ++ Ev second_capture (Returned 0)
    :: skipn 16 (trace (main unit (uniform_page 0) tt)) /\
  add_attempts (firstn 15 (trace (main unit (uniform_page 0) tt))) = 6.
Proof.
  split; [vm_compute; reflexivity|].
  apply (six_add_attempts unit (uniform_page 0) tt
           (firstn 15 (trace (main unit (uniform_page 0) tt))) (Returned 0)
           (skipn 16 (trace (main unit (uniform_page 0) tt)))).
  vm_compute; reflexivity.
Defined.

(** X9 at work: the first capture. *)
Lemma page_is_loaded_first_witness :
  trace (main unit (uniform_page 0) tt) =
    firstn 7 (trace (main unit (uniform_page 0) tt))
    ++ Ev (Screenshot "docs/images/01_empty_list_view.png") (Returned 0)
    :: skipn 8 (trace (main unit (uniform_page 0) tt)) /\
  page_call (Screenshot "docs/images/01_empty_list_view.png") = true /\
  (exists v, In (Ev (Goto "http://localhost:1420") (Returned v))
               (firstn 7 (trace (main unit (uniform_page 0) tt)))) /\
  (exists v, In (Ev (WaitForLoadState "networkidle") (Returned v))
               (firstn 7 (trace (main unit (uniform_page 0) tt)))).
Proof.
  split; [vm_compute; reflexivity|]. split; [reflexivity|].
  apply (page_is_loaded_first unit (uniform_page 0) tt
           (firstn 7 (trace (main unit (uniform_page 0) tt)))
           (Screenshot "docs/images/01_empty_list_view.png") (Returned 0)
           (skipn 8 (trace (main unit (uniform_page 0) tt))));
    [vm_compute; reflexivity | reflexivity].
Defined.

(** X10 at work: the first click. *)
Lemma interactions_settle_witness :
  trace (main unit (uniform_page 1) tt) =
    firstn 9 (trace (main unit (uniform_page 1) tt))
    ++ Ev (Click add_button) (Returned 0)
    :: skipn 10 (trace (main unit (uniform_page 1) tt)) /\
  interaction (Click add_button) = true /\
  exists c' r' post',
    skipn 10 (trace (main unit (uniform_page 1) tt)) = Ev c' r' :: post' /\
    exists ms, c' = WaitForTimeout ms.
Proof.
  split; [vm_compute; reflexivity|]. split; [reflexivity|].
  apply (interactions_settle unit (uniform_page 1) tt
           (firstn 9 (trace (main unit (uniform_page 1) tt)))
           (Click add_button) 0
           (skipn 10 (trace (main unit (uniform_page 1) tt))));
    [vm_compute; reflexivity | reflexivity].
Defined.

(** The bound of X11 is reached when every block is entered. *)
Example pauses_all_blocks_entered :
  total_pause (trace (main unit (uniform_page 6) tt)) = 13000%N.
Proof. vm_compute. reflexivity. Qed.
